(** * The idle-transaction controller of the Tracing integration

    A shallow embedding of [packages/apm/src/integrations/tracing.ts]:
    the static state of class [Tracing], the browser runtime it talks to
    (timers, clock, [Math.random], the hub and its scope), and the
    operations of the class as state-passing functions.  Calls into the
    span, hub and scope collaborators are recorded in a log, newest first;
    calls to the logger are left out.  Milliseconds are integers and sample
    rates rationals, which the code only compares; the timestamps of an
    event and [maxTransactionDuration], on which the event processor
    subtracts and compares, are IEEE 754 doubles as in JavaScript. *)

From Stdlib Require Import ZArith QArith List String Bool Lia PrimFloat.
From stdpp Require Import base gmap strings list fin_maps.

Local Open Scope string_scope.
Local Open Scope list_scope.

(** ** Data model *)

(** A span is an object of the collaborator; the model keeps its identity. *)
Definition Span := nat.

Inductive JsVal :=
| VBool (b : bool)
| VNum (z : Z)
| VStr (s : string).

(** [SpanStatus.DeadlineExceeded] of [@sentry/types]. *)
Definition DeadlineExceeded : string := "deadline_exceeded".

Record SpanContext := mkSpanContext {
  op : option string;
  description : option string;
  sampled : option bool;
  transaction : option string;
}.

(** [interface Activity { name: string; span?: Span }] *)
Record Activity := mkActivity {
  name : string;
  span : option Span;
}.

(** [interface TracingOptions], the fields the controller reads.
    [tracesSampleRate] is [None] when [typeof] of the configured value is
    not ['number'].  Durations in milliseconds are integers, as the timer
    API takes them; [maxTransactionDuration] is a double, in seconds. *)
Record TracingOptions := mkTracingOptions {
  traceFetch : bool;
  traceXHR : bool;
  idleTimeout : Z;
  startTransactionOnLocationChange : bool;
  tracesSampleRate : option Q;
  maxTransactionDuration : float;
  discardBackgroundSpans : bool;
}.

(** [Partial<TracingOptions>] as passed to the constructor. *)
Record PartialOptions := mkPartialOptions {
  p_traceFetch : option bool;
  p_traceXHR : option bool;
  p_idleTimeout : option Z;
  p_startTransactionOnLocationChange : option bool;
  p_tracesSampleRate : option (option Q);
  p_maxTransactionDuration : option float;
  p_discardBackgroundSpans : option bool;
}.

(** What the function stored in [Tracing._getCurrentHub] yields when called. *)
Inductive HubGetter :=
| ReturnsHub
| ReturnsUndefined.

(** The closures handed to [setTimeout] by the class. *)
Inductive Callback :=
| CbPopActivity (id : nat) (spanData : option (list (string * JsVal)))
| CbFinishIdleTransaction.

Record Timer := mkTimer {
  handle : nat;
  due : Z;
  callback : Callback;
}.

(** The closure handed to [hub.configureScope]:
    [scope => { scope.setTransaction(name); }].  Whether and when the hub
    runs it is the hub's business. *)
Inductive ScopeCallback :=
| CbSetTransaction (n : string).

(** Calls into the span, hub and scope collaborators. *)
Inductive Call :=
| HubStartSpan (s : Span) (ctx : SpanContext) (parent : option Span)
| ScopeSetSpan (s : Span)
| HubConfigureScope (cb : ScopeCallback)
| SpanFinish (s : Span) (useLastSpanTimestamp : bool)
| SpanSetStatus (s : Span) (status : JsVal)
| SpanSetData (s : Span) (key : string) (value : JsVal)
| SpanSetHttpStatus (s : Span) (code : JsVal).

Record State := mkState {
  (* static fields of class Tracing *)
  _enabled : option bool;
  options : option TracingOptions;
  _getCurrentHub : option HubGetter;
  _activeTransaction : option Span;
  _currentIndex : nat;
  _activities : gmap nat Activity;
  _debounce : nat;
  (* the runtime *)
  timers : list Timer;
  nextHandle : nat;
  now : Z;
  randomDraws : nat;
  nextSpan : nat;
  scopeSpan : option Span;
  calls : list Call;
  visibilityListeners : nat;
  eventProcessors : nat;
  handlers : list string;
}.

(** The class before any instance exists; timer handles start at 1. *)
Definition initial : State :=
  {| _enabled := None; options := None; _getCurrentHub := None;
     _activeTransaction := None; _currentIndex := 1; _activities := ∅;
     _debounce := 0;
     timers := []; nextHandle := 1; now := 0; randomDraws := 0;
     nextSpan := 0; scopeSpan := None; calls := [];
     visibilityListeners := 0; eventProcessors := 0; handlers := [] |}.

(** ** Field updates *)

Definition set_enabled (v : option bool) (st : State) : State :=
  mkState v (options st) (_getCurrentHub st) (_activeTransaction st)
    (_currentIndex st) (_activities st) (_debounce st) (timers st)
    (nextHandle st) (now st) (randomDraws st) (nextSpan st) (scopeSpan st)
    (calls st) (visibilityListeners st) (eventProcessors st) (handlers st).

Definition set_options (v : option TracingOptions) (st : State) : State :=
  mkState (_enabled st) v (_getCurrentHub st) (_activeTransaction st)
    (_currentIndex st) (_activities st) (_debounce st) (timers st)
    (nextHandle st) (now st) (randomDraws st) (nextSpan st) (scopeSpan st)
    (calls st) (visibilityListeners st) (eventProcessors st) (handlers st).

Definition set_getCurrentHub (v : option HubGetter) (st : State) : State :=
  mkState (_enabled st) (options st) v (_activeTransaction st)
    (_currentIndex st) (_activities st) (_debounce st) (timers st)
    (nextHandle st) (now st) (randomDraws st) (nextSpan st) (scopeSpan st)
    (calls st) (visibilityListeners st) (eventProcessors st) (handlers st).

Definition set_activeTransaction (v : option Span) (st : State) : State :=
  mkState (_enabled st) (options st) (_getCurrentHub st) v
    (_currentIndex st) (_activities st) (_debounce st) (timers st)
    (nextHandle st) (now st) (randomDraws st) (nextSpan st) (scopeSpan st)
    (calls st) (visibilityListeners st) (eventProcessors st) (handlers st).

Definition set_currentIndex (v : nat) (st : State) : State :=
  mkState (_enabled st) (options st) (_getCurrentHub st) (_activeTransaction st)
    v (_activities st) (_debounce st) (timers st)
    (nextHandle st) (now st) (randomDraws st) (nextSpan st) (scopeSpan st)
    (calls st) (visibilityListeners st) (eventProcessors st) (handlers st).

Definition set_activities (v : gmap nat Activity) (st : State) : State :=
  mkState (_enabled st) (options st) (_getCurrentHub st) (_activeTransaction st)
    (_currentIndex st) v (_debounce st) (timers st)
    (nextHandle st) (now st) (randomDraws st) (nextSpan st) (scopeSpan st)
    (calls st) (visibilityListeners st) (eventProcessors st) (handlers st).

Definition set_debounce (v : nat) (st : State) : State :=
  mkState (_enabled st) (options st) (_getCurrentHub st) (_activeTransaction st)
    (_currentIndex st) (_activities st) v (timers st)
    (nextHandle st) (now st) (randomDraws st) (nextSpan st) (scopeSpan st)
    (calls st) (visibilityListeners st) (eventProcessors st) (handlers st).

Definition set_timers (v : list Timer) (st : State) : State :=
  mkState (_enabled st) (options st) (_getCurrentHub st) (_activeTransaction st)
    (_currentIndex st) (_activities st) (_debounce st) v
    (nextHandle st) (now st) (randomDraws st) (nextSpan st) (scopeSpan st)
    (calls st) (visibilityListeners st) (eventProcessors st) (handlers st).

Definition set_nextHandle (v : nat) (st : State) : State :=
  mkState (_enabled st) (options st) (_getCurrentHub st) (_activeTransaction st)
    (_currentIndex st) (_activities st) (_debounce st) (timers st)
    v (now st) (randomDraws st) (nextSpan st) (scopeSpan st)
    (calls st) (visibilityListeners st) (eventProcessors st) (handlers st).

Definition set_now (v : Z) (st : State) : State :=
  mkState (_enabled st) (options st) (_getCurrentHub st) (_activeTransaction st)
    (_currentIndex st) (_activities st) (_debounce st) (timers st)
    (nextHandle st) v (randomDraws st) (nextSpan st) (scopeSpan st)
    (calls st) (visibilityListeners st) (eventProcessors st) (handlers st).

Definition set_randomDraws (v : nat) (st : State) : State :=
  mkState (_enabled st) (options st) (_getCurrentHub st) (_activeTransaction st)
    (_currentIndex st) (_activities st) (_debounce st) (timers st)
    (nextHandle st) (now st) v (nextSpan st) (scopeSpan st)
    (calls st) (visibilityListeners st) (eventProcessors st) (handlers st).

Definition set_nextSpan (v : nat) (st : State) : State :=
  mkState (_enabled st) (options st) (_getCurrentHub st) (_activeTransaction st)
    (_currentIndex st) (_activities st) (_debounce st) (timers st)
    (nextHandle st) (now st) (randomDraws st) v (scopeSpan st)
    (calls st) (visibilityListeners st) (eventProcessors st) (handlers st).

Definition set_scopeSpan (v : option Span) (st : State) : State :=
  mkState (_enabled st) (options st) (_getCurrentHub st) (_activeTransaction st)
    (_currentIndex st) (_activities st) (_debounce st) (timers st)
    (nextHandle st) (now st) (randomDraws st) (nextSpan st) v
    (calls st) (visibilityListeners st) (eventProcessors st) (handlers st).

Definition set_calls (v : list Call) (st : State) : State :=
  mkState (_enabled st) (options st) (_getCurrentHub st) (_activeTransaction st)
    (_currentIndex st) (_activities st) (_debounce st) (timers st)
    (nextHandle st) (now st) (randomDraws st) (nextSpan st) (scopeSpan st)
    v (visibilityListeners st) (eventProcessors st) (handlers st).

Definition set_visibilityListeners (v : nat) (st : State) : State :=
  mkState (_enabled st) (options st) (_getCurrentHub st) (_activeTransaction st)
    (_currentIndex st) (_activities st) (_debounce st) (timers st)
    (nextHandle st) (now st) (randomDraws st) (nextSpan st) (scopeSpan st)
    (calls st) v (eventProcessors st) (handlers st).

Definition set_eventProcessors (v : nat) (st : State) : State :=
  mkState (_enabled st) (options st) (_getCurrentHub st) (_activeTransaction st)
    (_currentIndex st) (_activities st) (_debounce st) (timers st)
    (nextHandle st) (now st) (randomDraws st) (nextSpan st) (scopeSpan st)
    (calls st) (visibilityListeners st) v (handlers st).

Definition set_handlers (v : list string) (st : State) : State :=
  mkState (_enabled st) (options st) (_getCurrentHub st) (_activeTransaction st)
    (_currentIndex st) (_activities st) (_debounce st) (timers st)
    (nextHandle st) (now st) (randomDraws st) (nextSpan st) (scopeSpan st)
    (calls st) (visibilityListeners st) (eventProcessors st) v.

(** ** The runtime: collaborator calls, timers, the hub *)

Definition record (c : Call) (st : State) : State :=
  set_calls (c :: calls st) st.

(** [setTimeout(cb, delay)] returns a fresh handle; the browser clamps a
    negative delay to 0. *)
Definition setTimeout (cb : Callback) (delay : Z) (st : State) : nat * State :=
  let h := nextHandle st in
  (h, set_nextHandle (S h)
        (set_timers (timers st ++ [mkTimer h (now st + Z.max 0 delay) cb]) st)).

(** [clearTimeout(h)]: a handle that is not pending is ignored. *)
Definition clearTimeout (h : nat) (st : State) : State :=
  set_timers (List.filter (fun t => negb (Nat.eqb (handle t) h)) (timers st)) st.

(** Modelled from the spec: the hub collaborator's [startSpan] (package
    [@sentry/hub], not under src/).  "Starting a span (optionally flagged as
    a transaction root)": the result is a fresh span, a child of the span
    bound on the scope unless it is flagged as a root. *)
Definition hub_startSpan (ctx : SpanContext) (forceNoChild : bool) (st : State)
  : Span * State :=
  let s := nextSpan st in
  let parent := if forceNoChild then None else scopeSpan st in
  (s, record (HubStartSpan s ctx parent) (set_nextSpan (S s) st)).

(** Modelled from the spec: [hub.getScope().setSpan(span)], "binding the
    active transaction onto the ambient scope" (not under src/). *)
Definition scope_setSpan (s : Span) (st : State) : State :=
  record (ScopeSetSpan s) (set_scopeSpan (Some s) st).

(** JavaScript comparisons and truthiness on the numbers of the model. *)
Definition Qgtb (x y : Q) : bool := negb (Qle_bool x y).
Definition truthyQ (x : Q) : bool := negb (Qeq_bool x 0).
Definition truthyZ (x : Z) : bool := negb (x =? 0)%Z.
Definition truthyString (s : string) : bool := negb (String.eqb s "").

(** A double is falsy when it is [0], [-0] or [NaN]. *)
Definition truthyNumber (x : float) : bool :=
  negb (PrimFloat.eqb x 0) && negb (PrimFloat.is_nan x).

(** ** The class *)

Definition defaults : TracingOptions :=
  {| traceFetch := true; traceXHR := true; idleTimeout := 500;
     startTransactionOnLocationChange := true; tracesSampleRate := Some 1%Q;
     maxTransactionDuration := 600%float; discardBackgroundSpans := true |}.

(** [{ ...defaults, ..._options }] *)
Definition mergeOptions (_options : option PartialOptions) : TracingOptions :=
  match _options with
  | None => defaults
  | Some p =>
    {| traceFetch := default (traceFetch defaults) (p_traceFetch p);
       traceXHR := default (traceXHR defaults) (p_traceXHR p);
       idleTimeout := default (idleTimeout defaults) (p_idleTimeout p);
       startTransactionOnLocationChange :=
         default (startTransactionOnLocationChange defaults)
                 (p_startTransactionOnLocationChange p);
       tracesSampleRate :=
         default (tracesSampleRate defaults) (p_tracesSampleRate p);
       maxTransactionDuration :=
         default (maxTransactionDuration defaults) (p_maxTransactionDuration p);
       discardBackgroundSpans :=
         default (discardBackgroundSpans defaults) (p_discardBackgroundSpans p) |}
  end.

(** [new Tracing(_options)] *)
Definition constructor (_options : option PartialOptions) (st : State) : State :=
  set_options (Some (mergeOptions _options)) st.

(** [Tracing._isEnabled()]; [u] is what [Math.random()] returns if it is
    called, and [randomDraws] counts the calls. *)
Definition _isEnabled (u : Q) (st : State) : bool * State :=
  match _enabled st with
  | Some b => (b, st)
  | None =>
    match options st with
    | None => (false, st)
    | Some o =>
      match tracesSampleRate o with
      | None => (false, st)
      | Some r =>
        let b := if Qgtb u r then false else true in
        (b, set_enabled (Some b) (set_randomDraws (S (randomDraws st)) st))
      end
    end
  end.

(** [Tracing.finishIdleTransaction()] *)
Definition finishIdleTransaction (st : State) : State :=
  match _activeTransaction st with
  | Some active => record (SpanFinish active true) st
  | None => st
  end.

(** [Tracing.setTransactionStatus(status)] *)
Definition setTransactionStatus (status : string) (st : State) : State :=
  match _activeTransaction st with
  | Some active => record (SpanSetStatus active (VStr status)) st
  | None => st
  end.

(** [Tracing.updateTransactionName(name)] *)
Definition updateTransactionName (n : string) (st : State) : State :=
  match _getCurrentHub st with
  | Some ReturnsHub => record (HubConfigureScope (CbSetTransaction n)) st
  | _ => st
  end.

Definition autoPopData : list (string * JsVal) :=
  [("autoPop", VBool true); ("status", VStr DeadlineExceeded)].

(** [Tracing.pushActivity(name, spanContext, { autoPopAfter })] *)
Definition pushActivity (u : Q) (n : string) (spanContext : option SpanContext)
    (autoPopAfter : option Z) (st : State) : nat * State :=
  let '(enabled, st) := _isEnabled u st in
  if negb enabled then (0, st) else
  match _activeTransaction st with
  | None => (0, st)
  | Some _ =>
    let st := clearTimeout (_debounce st) st in
    let st :=
      match spanContext, _getCurrentHub st with
      | Some ctx, Some getter =>
        match getter with
        | ReturnsHub =>
          let '(s, st) := hub_startSpan ctx false st in
          set_activities
            (<[_currentIndex st := mkActivity n (Some s)]> (_activities st)) st
        | ReturnsUndefined => st
        end
      | _, _ =>
        set_activities
          (<[_currentIndex st := mkActivity n None]> (_activities st)) st
      end in
    let st :=
      match autoPopAfter with
      | Some d =>
        snd (setTimeout (CbPopActivity (_currentIndex st) (Some autoPopData)) d st)
      | None => st
      end in
    (_currentIndex st, set_currentIndex (S (_currentIndex st)) st)
  end.

(** The [forEach] over [Object.keys(spanData)] of [popActivity]. *)
Definition applySpanData (s : Span) (spanData : list (string * JsVal))
    (st : State) : State :=
  fold_left
    (fun st kv =>
       let st := record (SpanSetData s (fst kv) (snd kv)) st in
       let st := if String.eqb (fst kv) "status_code"
                 then record (SpanSetHttpStatus s (snd kv)) st else st in
       if String.eqb (fst kv) "status"
       then record (SpanSetStatus s (snd kv)) st else st)
    spanData st.

(** [Tracing.popActivity(id, spanData)] *)
Definition popActivity (u : Q) (id : nat)
    (spanData : option (list (string * JsVal))) (st : State) : State :=
  let '(enabled, st) := _isEnabled u st in
  if negb enabled || Nat.eqb id 0 then st else
  let st :=
    match _activities st !! id with
    | Some activity =>
      let st :=
        match span activity with
        | Some s =>
          let st := match spanData with
                    | Some d => applySpanData s d st
                    | None => st
                    end in
          record (SpanFinish s false) st
        | None => st
        end in
      set_activities (delete id (_activities st)) st
    | None => st
    end in
  let count := size (_activities st) in
  let st := clearTimeout (_debounce st) st in
  match count, _activeTransaction st with
  | 0, Some _ =>
    let timeout := match options st with
                   | Some o => idleTimeout o
                   | None => 0%Z
                   end in
    let '(h, st) := setTimeout CbFinishIdleTransaction timeout st in
    set_debounce h st
  | _, _ => st
  end.

(** [{ ...spanContext, transaction: name }] *)
Definition withTransaction (n : string) (spanContext : option SpanContext)
  : SpanContext :=
  match spanContext with
  | Some c => mkSpanContext (op c) (description c) (sampled c) (Some n)
  | None => mkSpanContext None None None (Some n)
  end.

(** [(Tracing.options && Tracing.options.idleTimeout) || 100] *)
Definition bootstrapDelay (st : State) : Z :=
  match options st with
  | Some o => if truthyZ (idleTimeout o) then idleTimeout o else 100%Z
  | None => 100%Z
  end.

(** [Tracing.startIdleTransaction(name, spanContext)] *)
Definition startIdleTransaction (u : Q) (n : string)
    (spanContext : option SpanContext) (st : State) : option Span * State :=
  let '(enabled, st) := _isEnabled u st in
  if negb enabled then (None, st) else
  let st := finishIdleTransaction st in
  match _getCurrentHub st with
  | None => (None, st)
  | Some ReturnsUndefined => (None, st)
  | Some ReturnsHub =>
    let '(s, st) := hub_startSpan (withTransaction n spanContext) true st in
    let st := set_activeTransaction (Some s) st in
    let st := scope_setSpan s st in
    let '(id, st) := pushActivity u "idleTransactionStarted" None None st in
    let st := snd (setTimeout (CbPopActivity id None) (bootstrapDelay st) st) in
    (Some s, st)
  end.

(** The [visibilitychange] listener registered by [setupOnce]. *)
Definition visibilityListener (hidden : bool) (st : State) : State :=
  match hidden, _activeTransaction st with
  | true, Some _ => set_activities ∅ (set_activeTransaction None st)
  | _, _ => st
  end.

(** A [visibilitychange] event of the document runs every registered
    listener. *)
Definition visibilitychange (hidden : bool) (st : State) : State :=
  Nat.iter (visibilityListeners st) (visibilityListener hidden) st.

(** ** The event processor *)

(** The fields of an event the processor reads; the timestamps are
    doubles, in seconds. *)
Record Event := mkEvent {
  type : option string;
  timestamp : option float;
  start_timestamp : option float;
}.

Inductive Processed :=
| Delivered (e : Event)
| Dropped
| ThrowsTypeError.

Definition isTransaction (event : Event) : bool :=
  match type event with
  | Some t => String.eqb t "transaction"
  | None => false
  end.

(** [event.timestamp && event.start_timestamp && (... > max || ... < 0)],
    the difference and the comparisons being those of doubles. *)
Definition isOutdatedTransaction (event : Event) (maxDuration : float) : bool :=
  match timestamp event, start_timestamp event with
  | Some t, Some s =>
    truthyNumber t && truthyNumber s &&
    (PrimFloat.ltb maxDuration (PrimFloat.sub t s)
     || PrimFloat.ltb (PrimFloat.sub t s) 0)
  | _, _ => false
  end.

(** The callback given to [addGlobalEventProcessor]; [self] is whether
    [getCurrentHub().getIntegration(Tracing)] finds the integration. *)
Definition eventProcessor (self : bool) (u : Q) (event : Event) (st : State)
  : Processed * State :=
  if negb self then (Delivered event, st) else
  let '(enabled, st) := _isEnabled u st in
  if enabled then
    match options st with
    | None => (ThrowsTypeError, st)
    | Some o =>
      if negb (PrimFloat.eqb (maxTransactionDuration o) 0)
         && isTransaction event
         && isOutdatedTransaction event (maxTransactionDuration o)
      then (Dropped, st)
      else (Delivered event, st)
    end
  else (Delivered event, st).

(** ** Setup and the adapters that start transactions *)

(** The globals [setupOnce] and [historyCallback] look at:
    [global.location.href] when [global.location] exists, whether
    [global.document] exists, and [supportsNativeFetch()]. *)
Record Browser := mkBrowser {
  location_href : option string;
  document : bool;
  nativeFetch : bool;
}.

Definition addInstrumentationHandler (handlerType : string) (st : State)
  : State :=
  set_handlers (handlers st ++ [handlerType]) st.

Definition pageload : SpanContext :=
  mkSpanContext (Some "pageload") None (Some true) None.

Definition navigation : SpanContext :=
  mkSpanContext (Some "navigation") None (Some true) None.

(** [setupOnce(addGlobalEventProcessor, getCurrentHub)].  Reading a field of
    an undefined [Tracing.options] throws and ends the call. *)
Definition setupOnce (getCurrentHub : HubGetter) (env : Browser) (u : Q)
    (st : State) : State :=
  let st := set_getCurrentHub (Some getCurrentHub) st in
  let '(enabled, st) := _isEnabled u st in
  if negb enabled then st else
  match options st with
  | None => st
  | Some o =>
    let st := if traceXHR o then addInstrumentationHandler "xhr" st else st in
    let st := if traceFetch o && nativeFetch env
              then addInstrumentationHandler "fetch" st else st in
    let st := if startTransactionOnLocationChange o
              then addInstrumentationHandler "history" st else st in
    let st :=
      match location_href env with
      | Some href =>
        if truthyString href
        then snd (startIdleTransaction u href (Some pageload) st)
        else st
      | None => st
      end in
    let st := if discardBackgroundSpans o && document env
              then set_visibilityListeners (S (visibilityListeners st)) st
              else st in
    set_eventProcessors (S (eventProcessors st)) st
  end.

(** [historyCallback] *)
Definition historyCallback (env : Browser) (u : Q) (st : State) : State :=
  match options st with
  | None => st
  | Some o =>
    if startTransactionOnLocationChange o then
      match location_href env with
      | Some href => snd (startIdleTransaction u href (Some navigation) st)
      | None => st
      end
    else st
  end.

(** ** Timers firing and time passing *)

Definition runCallback (u : Q) (cb : Callback) (st : State) : State :=
  match cb with
  | CbPopActivity id spanData => popActivity u id spanData st
  | CbFinishIdleTransaction => finishIdleTransaction st
  end.

Definition elapse (dt : Z) (st : State) : State :=
  set_now (now st + Z.max 0 dt) st.

(** A pending timer whose time has come is taken off the list and its
    callback runs. *)
Definition fireTimer (u : Q) (h : nat) (st : State) : State :=
  match List.find (fun t => Nat.eqb (handle t) h) (timers st) with
  | Some t =>
    if (due t <=? now st)%Z
    then runCallback u (callback t) (clearTimeout h st)
    else st
  | None => st
  end.

(** The pending timer that is due first; among equals, the one set first. *)
Fixpoint earliest (ts : list Timer) : option Timer :=
  match ts with
  | [] => None
  | t :: ts' =>
    match earliest ts' with
    | Some t' => if (due t' <? due t)%Z then Some t' else Some t
    | None => Some t
    end
  end.

(** Nothing else happens until the next timer is due, then it fires. *)
Definition runNextTimer (u : Q) (st : State) : State :=
  match earliest (timers st) with
  | Some t => fireTimer u (handle t) (elapse (due t - now st) st)
  | None => st
  end.

(** ** Everything that can happen to the class *)

Inductive Op :=
| New (_options : option PartialOptions)
| SetupOnce (getCurrentHub : HubGetter) (env : Browser) (u : Q)
| StartIdleTransaction (u : Q) (n : string) (ctx : option SpanContext)
| UpdateTransactionName (n : string)
| FinishIdleTransaction
| SetTransactionStatus (status : string)
| PushActivity (u : Q) (n : string) (ctx : option SpanContext)
    (autoPopAfter : option Z)
| PopActivity (u : Q) (id : nat) (spanData : option (list (string * JsVal)))
| VisibilityChange (hidden : bool)
| HistoryChange (env : Browser) (u : Q)
| ProcessEvent (self : bool) (u : Q) (event : Event)
| FireTimer (u : Q) (h : nat)
| Elapse (dt : Z).

Definition countHandlers (handlerType : string) (st : State) : nat :=
  length (List.filter (String.eqb handlerType) (handlers st)).

Definition step (o : Op) (st : State) : State :=
  match o with
  | New _options => constructor _options st
  | SetupOnce g env u => setupOnce g env u st
  | StartIdleTransaction u n ctx => snd (startIdleTransaction u n ctx st)
  | UpdateTransactionName n => updateTransactionName n st
  | FinishIdleTransaction => finishIdleTransaction st
  | SetTransactionStatus status => setTransactionStatus status st
  | PushActivity u n ctx autoPopAfter =>
    snd (pushActivity u n ctx autoPopAfter st)
  | PopActivity u id spanData => popActivity u id spanData st
  | VisibilityChange hidden => visibilitychange hidden st
  | HistoryChange env u =>
    Nat.iter (countHandlers "history" st) (historyCallback env u) st
  | ProcessEvent self u event =>
    Nat.iter (eventProcessors st)
             (fun st => snd (eventProcessor self u event st)) st
  | FireTimer u h => fireTimer u h st
  | Elapse dt => elapse dt st
  end.

Definition run (ops : list Op) (st : State) : State :=
  fold_left (fun st o => step o st) ops st.

Inductive reachable : State -> Prop :=
| reachable_initial : reachable initial
| reachable_step o st : reachable st -> reachable (step o st).

(** ** Observations used in the statements *)

Definition isFinishTimer (t : Timer) : bool :=
  match callback t with
  | CbFinishIdleTransaction => true
  | CbPopActivity _ _ => false
  end.

(** The pending timers that would finish the active transaction. *)
Definition pendingFinishTimers (st : State) : list Timer :=
  List.filter isFinishTimer (timers st).

Definition isFinishOf (s : Span) (c : Call) : bool :=
  match c with
  | SpanFinish s' _ => Nat.eqb s' s
  | _ => false
  end.

(** How often [finish] was called on span [s]. *)
Definition finishCount (s : Span) (st : State) : nat :=
  length (List.filter (isFinishOf s) (calls st)).

(** The sample rate [_isEnabled] finds, if it is configured and a number. *)
Definition sampleRate (st : State) : option Q :=
  match options st with
  | Some o => tracesSampleRate o
  | None => None
  end.

(** The state after the gate was consulted. *)
Definition gate (u : Q) (st : State) : State := snd (_isEnabled u st).

(** The collaborator calls [applySpanData] adds in front of [cs]. *)
Definition spanDataCalls (s : Span) (spanData : list (string * JsVal))
    (cs : list Call) : list Call :=
  calls (applySpanData s spanData (set_calls cs initial)).

(** The collaborator calls after [popActivity] went past its gate. *)
Definition popCalls (id : nat) (spanData : option (list (string * JsVal)))
    (st : State) : list Call :=
  match _activities st !! id with
  | Some (mkActivity _ (Some s)) =>
    SpanFinish s false
      :: match spanData with
         | Some d => spanDataCalls s d (calls st)
         | None => calls st
         end
  | _ => calls st
  end.

Definition hasActive (st : State) : bool :=
  match _activeTransaction st with
  | Some _ => true
  | None => false
  end.

(** Whether [popActivity id] leaves an empty registry under an active
    transaction, in which case it schedules the finish. *)
Definition reschedules (id : nat) (st : State) : bool :=
  Nat.eqb (size (delete id (_activities st))) 0 && hasActive st.

(** [Tracing.options && Tracing.options.idleTimeout] as a timer delay. *)
Definition finishDelay (st : State) : Z :=
  match options st with
  | Some o => idleTimeout o
  | None => 0%Z
  end.

Definition keepPending (h : nat) (ts : list Timer) : list Timer :=
  List.filter (fun t => negb (Nat.eqb (handle t) h)) ts.

(** What [pushActivity] puts into the registry once it is past its gate. *)
Inductive Stored :=
| StoresSpan (ctx : SpanContext)
| StoresMarker
| StoresNothing.

Definition stored (spanContext : option SpanContext) (st : State) : Stored :=
  match spanContext, _getCurrentHub st with
  | Some ctx, Some ReturnsHub => StoresSpan ctx
  | Some _, Some ReturnsUndefined => StoresNothing
  | _, _ => StoresMarker
  end.

(** An operation that runs [popActivity], directly or from a timer. *)
Definition runsPopActivity (o : Op) (st : State) : bool :=
  match o with
  | PopActivity _ _ _ => true
  | FireTimer _ h =>
    match List.find (fun t => Nat.eqb (handle t) h) (timers st) with
    | Some t => negb (isFinishTimer t)
    | None => false
    end
  | _ => false
  end.

(** Every finish timer pending in [st'] was already pending in [st]. *)
Definition noNewFinishTimer (st st' : State) : Prop :=
  forall t, In t (pendingFinishTimers st') -> In t (pendingFinishTimers st).

(** What holds of every reachable state. *)
Record Inv (st : State) : Prop := mkInv {
  inv_index : 1 <= _currentIndex st;
  inv_ids : forall id a, _activities st !! id = Some a -> id < _currentIndex st;
  inv_one_finish_timer : length (pendingFinishTimers st) <= 1;
  inv_debounce :
    forall t, In t (timers st) -> isFinishTimer t = true ->
              handle t = _debounce st;
  inv_scope :
    forall a, _activeTransaction st = Some a -> scopeSpan st = Some a;
  inv_active_span :
    forall a, _activeTransaction st = Some a -> a < nextSpan st;
  inv_activity_spans :
    forall id a s, _activities st !! id = Some a -> span a = Some s ->
                   s < nextSpan st;
  inv_registry : _activeTransaction st = None -> _activities st = ∅;
}.



(** The calls one entry of [spanData] adds in front of [cs]. *)
Definition spanDataEntryCalls (s : Span) (kv : string * JsVal)
    (cs : list Call) : list Call :=
  let c1 := SpanSetData s (fst kv) (snd kv) :: cs in
  let c2 := if String.eqb (fst kv) "status_code"
            then SpanSetHttpStatus s (snd kv) :: c1 else c1 in
  if String.eqb (fst kv) "status" then SpanSetStatus s (snd kv) :: c2 else c2.

(** ** Scenarios *)

Definition browser : Browser := mkBrowser (Some "http://localhost/") true true.

Definition noLocation : Browser := mkBrowser None true true.

Definition xhr : SpanContext :=
  mkSpanContext (Some "http") (Some "GET /api") None None.

(** A page load with the default options: the pageload transaction is
    active and only its bootstrap activity is open. *)
Definition afterPageload : State :=
  run [New None; SetupOnce ReturnsHub browser (1 # 2)] initial.

(** [idleTimeout: 0] configured. *)
Definition zeroIdleTimeout : PartialOptions :=
  mkPartialOptions None None (Some 0%Z) None None None None.

Definition afterPageloadZeroTimeout : State :=
  run [New (Some zeroIdleTimeout); SetupOnce ReturnsHub browser (1 # 2)] initial.

(** An activity with an auto-pop after 700 ms is pushed and popped by hand
    at once; the bootstrap activity is popped by its timer at 500 ms, which
    schedules the finish for 1000 ms. *)
Definition finishPending : State :=
  run [PushActivity 0 "xhr" (Some xhr) (Some 700%Z); PopActivity 0 2 None;
       Elapse 500; FireTimer 0 1] afterPageload.

(** The integration is set up on a page without [location]: tracing is
    enabled, the hub getter is installed, and nothing has started yet. *)
Definition afterSetup : State :=
  run [New None; SetupOnce ReturnsHub noLocation (1 # 2)] initial.

(** A request is in flight under the pageload transaction. *)
Definition requestInFlight : State :=
  run [PushActivity 0 "xhr" (Some xhr) None] afterPageload.

(** The integration is set up a second time with a getter that yields no
    hub, on a page without [location]. *)
Definition hubLost : State :=
  run [SetupOnce ReturnsUndefined noLocation 0] afterPageload.

(** The tab is hidden while the finish timer is pending: the transaction
    is discarded and its finish timer is still on the list. *)
Definition discarded : State :=
  run [New None; SetupOnce ReturnsHub browser (1 # 2);
       PushActivity 0 "xhr" (Some xhr) (Some 700%Z); PopActivity 0 2 None;
       Elapse 500; FireTimer 0 1; VisibilityChange true] initial.

Definition transactionEvent (start_ts ts : float) : Event :=
  mkEvent (Some "transaction") (Some ts) (Some start_ts).

(** ** Further observations *)

(** More of what holds of every reachable state: a transaction is active
    only under a positive sampling decision, id 0 is never registered, and
    the handle kept in [_debounce] is never that of a pending pop timer. *)
Record Consistent (st : State) : Prop := mkConsistent {
  con_enabled :
    forall a, _activeTransaction st = Some a -> _enabled st = Some true;
  con_no_zero : _activities st !! 0 = None;
  con_handles : forall t, In t (timers st) -> handle t < nextHandle st;
  con_debounce : _debounce st < nextHandle st;
  con_pop_timers :
    forall t, In t (timers st) -> isFinishTimer t = false ->
              handle t <> _debounce st;
}.

(** A transaction is active only with a hub getter installed. *)
Definition GetterInstalled (st : State) : Prop :=
  hasActive st = true -> _getCurrentHub st <> None.

Definition isConfigureScope (c : Call) : bool :=
  match c with
  | HubConfigureScope _ => true
  | _ => false
  end.

(** The calls one entry of [spanData] causes, in the order they are made. *)
Definition spanDataEntry (s : Span) (kv : string * JsVal) : list Call :=
  SpanSetData s (fst kv) (snd kv)
  :: (if String.eqb (fst kv) "status_code"
      then [SpanSetHttpStatus s (snd kv)] else [])
  ++ (if String.eqb (fst kv) "status"
      then [SpanSetStatus s (snd kv)] else []).

(** [st'] is [st] as far as tracing goes: still sampled out, nothing
    active or registered anew, no span or timer created, and no
    collaborator called since except through [hub.configureScope]. *)
Record Inert (st st' : State) : Prop := mkInert {
  inert_enabled : _enabled st' = Some false;
  inert_active : _activeTransaction st' = None;
  inert_activities : _activities st' = _activities st;
  inert_index : _currentIndex st' = _currentIndex st;
  inert_nextSpan : nextSpan st' = nextSpan st;
  inert_nextHandle : nextHandle st' = nextHandle st;
  inert_timers : forall t, In t (timers st') -> In t (timers st);
  inert_calls :
    exists pre, calls st' = pre ++ calls st /\
                forallb isConfigureScope pre = true;
}.

(** A page load with a sample rate of 0: the draw, 1/2, is above it. *)
Definition sampledOut : State :=
  run [New (Some (mkPartialOptions None None None None (Some (Some 0%Q))
                                   None None));
       SetupOnce ReturnsHub browser (1 # 2)] initial.

(** A sampling decision is only ever cached with options in place. *)
Definition Configured (st : State) : Prop :=
  _enabled st <> None -> options st <> None.

(** What the rest of a step needs to keep the pop timer [t] pending. *)
Definition keepsTimer (t : Timer) (st : State) : Prop :=
  Inv st /\ Consistent st /\ In t (timers st).

(** The instrumentation handlers [setupOnce] asks for, in its order. *)
Definition requestedHandlers (o : TracingOptions) (env : Browser)
  : list string :=
  (if traceXHR o then ["xhr"] else [])
  ++ (if traceFetch o && nativeFetch env then ["fetch"] else [])
  ++ (if startTransactionOnLocationChange o then ["history"] else []).

(** Whether [global.location && global.location.href] is truthy. *)
Definition hasHref (env : Browser) : bool :=
  match location_href env with
  | Some href => truthyString href
  | None => false
  end.

(** The call log after [finishIdleTransaction]. *)
Definition finishedCalls (st : State) : list Call :=
  match _activeTransaction st with
  | Some a => SpanFinish a true :: calls st
  | None => calls st
  end.

(** ** The request adapters *)

(** Modelled from the spec: [span.toTraceparent()] of the span collaborator
    (not under src/) gives the "opaque string attached to outgoing
    requests"; the model keeps which span it was asked of. *)
Inductive HeaderValue :=
| Traceparent (s : Span)
| HeaderText (v : string).

(** [xhr.__sentry_xhr__], the description of the request the adapter reads:
    [method], [url] and, in [xhr_more], the keys that follow them, such as
    the [status_code] added when the request is over. *)
Record SentryXhr := mkSentryXhr {
  xhr_method : string;
  xhr_url : string;
  xhr_more : list (string * JsVal);
}.

(** The entries [popActivity] finds with [Object.keys] when it is handed
    [xhr.__sentry_xhr__] as span data. *)
Definition xhrEntries (x : SentryXhr) : list (string * JsVal) :=
  ("method", VStr (xhr_method x)) :: ("url", VStr (xhr_url x)) :: xhr_more x.

(** [handlerData.xhr]: the properties the adapter reads and writes, whether
    the object has a [setRequestHeader], and the headers set through it,
    oldest first. *)
Record XMLHttpRequest := mkXMLHttpRequest {
  __sentry_xhr__ : option SentryXhr;
  __sentry_own_request__ : bool;
  __sentry_xhr_activity_id__ : option nat;
  setRequestHeader : bool;
  requestHeaders : list (string * HeaderValue);
}.

Record XhrHandlerData := mkXhrHandlerData {
  hd_xhr : option XMLHttpRequest;
  hd_endTimestamp : option Q;
}.

(** Truthiness of an optional timestamp and of an optional activity id. *)
Definition truthyTimestamp (t : option Q) : bool :=
  match t with
  | Some q => truthyQ q
  | None => false
  end.

Definition truthyId (id : option nat) : bool :=
  match id with
  | Some (S _) => true
  | _ => false
  end.

(** [{ description: `${method} ${url}`, op: 'http' }]; the [data] entry of
    the span context is not among the fields [SpanContext] keeps. *)
Definition requestContext (method url : string) : SpanContext :=
  mkSpanContext (Some "http")
                (Some (String.append method (String.append " " url)))
                None None.

(** [xhrCallback(handlerData)].  [shouldCreateSpanForRequest] is the option
    of that name, a function of the url.  As in [setupOnce], reading a field
    of an undefined [Tracing.options] throws and ends the call.  The result
    holds [handlerData] as the call leaves it. *)
Definition xhrCallback (shouldCreateSpanForRequest : string -> bool) (u : Q)
    (handlerData : option XhrHandlerData) (st : State)
  : option XhrHandlerData * State :=
  match options st with
  | None => (handlerData, st)
  | Some o =>
    if negb (traceXHR o) then (handlerData, st) else
    match handlerData with
    | None => (handlerData, st)
    | Some hd =>
      match hd_xhr hd with
      | None => (handlerData, st)
      | Some x =>
        match __sentry_xhr__ x with
        | None => (handlerData, st)
        | Some sx =>
          if negb (shouldCreateSpanForRequest (xhr_url sx))
          then (handlerData, st) else
          if __sentry_own_request__ x then (handlerData, st) else
          if truthyTimestamp (hd_endTimestamp hd)
             && truthyId (__sentry_xhr_activity_id__ x)
          then
            (handlerData,
             popActivity u (default 0 (__sentry_xhr_activity_id__ x))
                         (Some (xhrEntries sx)) st)
          else
            let '(id, st) :=
              pushActivity u "xhr"
                (Some (requestContext (xhr_method sx) (xhr_url sx))) None st in
            let headers :=
              match _activities st !! id with
              | Some activity =>
                match span activity with
                | Some s =>
                  if setRequestHeader x
                  then requestHeaders x ++ [("sentry-trace", Traceparent s)]
                  else requestHeaders x
                | None => requestHeaders x
                end
              | None => requestHeaders x
              end in
            (Some (mkXhrHandlerData
                     (Some (mkXMLHttpRequest (__sentry_xhr__ x)
                              (__sentry_own_request__ x) (Some id)
                              (setRequestHeader x) headers))
                     (hd_endTimestamp hd)),
             st)
        end
      end
    end
  end.

(** [handlerData.fetchData] as the adapter uses it: [method], [url] and the
    [__activity] it adds itself. *)
Record FetchData := mkFetchData {
  fetch_method : string;
  fetch_url : string;
  __activity : option nat;
}.

(** The entries [popActivity] finds with [Object.keys] when it is handed
    [handlerData.fetchData] as span data. *)
Definition fetchEntries (d : FetchData) : list (string * JsVal) :=
  ("method", VStr (fetch_method d)) :: ("url", VStr (fetch_url d))
  :: match __activity d with
     | Some id => [("__activity", VNum (Z.of_nat id))]
     | None => []
     end.

(** An element of a headers array: a [[name, value]] pair or an object. *)
Inductive HeaderItem :=
| HeaderPair (k : string) (v : HeaderValue)
| HeaderObject (entries : list (string * HeaderValue)).

(** [options.headers] when it is set: an array, or an object with its own
    enumerable properties, the ones an object spread copies. *)
Inductive Headers :=
| HeadersArray (items : list HeaderItem)
| HeadersObject (own : list (string * HeaderValue)).

(** [handlerData.args[1]], the options of the [fetch] call. *)
Record FetchOptions := mkFetchOptions {
  fo_headers : option Headers;
  fo_more : list (string * JsVal);
}.

Record FetchHandlerData := mkFetchHandlerData {
  hd_fetchData : FetchData;
  hd_args1 : option FetchOptions;
  hd_fetchEndTimestamp : option Q;
}.

(** [{ ...entries, [k]: v }]: an existing key keeps its place. *)
Fixpoint setEntry (k : string) (v : HeaderValue)
    (entries : list (string * HeaderValue)) : list (string * HeaderValue) :=
  match entries with
  | [] => [(k, v)]
  | e :: entries' =>
    if String.eqb (fst e) k then (k, v) :: entries'
    else e :: setEntry k v entries'
  end.

(** The header injection of [fetchCallback] for span [s]. *)
Definition withTraceHeader (s : Span) (args1 : option FetchOptions)
  : FetchOptions :=
  let init := default (mkFetchOptions None []) args1 in
  mkFetchOptions
    (Some match fo_headers init with
          | Some (HeadersArray items) =>
            HeadersArray
              (items ++ [HeaderObject [("sentry-trace", Traceparent s)]])
          | Some (HeadersObject own) =>
            HeadersObject (setEntry "sentry-trace" (Traceparent s) own)
          | None => HeadersObject [("sentry-trace", Traceparent s)]
          end)
    (fo_more init).

(** [fetchCallback(handlerData)], with [shouldCreateSpanForRequest] and a
    missing [Tracing.options] as in [xhrCallback]. *)
Definition fetchCallback (shouldCreateSpanForRequest : string -> bool) (u : Q)
    (handlerData : FetchHandlerData) (st : State)
  : FetchHandlerData * State :=
  match options st with
  | None => (handlerData, st)
  | Some o =>
    if negb (traceFetch o) then (handlerData, st) else
    let fetchData := hd_fetchData handlerData in
    if negb (shouldCreateSpanForRequest (fetch_url fetchData))
    then (handlerData, st) else
    if truthyTimestamp (hd_fetchEndTimestamp handlerData)
       && truthyId (__activity fetchData)
    then
      (handlerData,
       popActivity u (default 0 (__activity fetchData))
                   (Some (fetchEntries fetchData)) st)
    else
      let '(id, st) :=
        pushActivity u "fetch"
          (Some (requestContext (fetch_method fetchData) (fetch_url fetchData)))
          None st in
      let fetchData :=
        mkFetchData (fetch_method fetchData) (fetch_url fetchData) (Some id) in
      let args1 :=
        match _activities st !! id with
        | Some activity =>
          match span activity with
          | Some s => Some (withTraceHeader s (hd_args1 handlerData))
          | None => hd_args1 handlerData
          end
        | None => hd_args1 handlerData
        end in
      (mkFetchHandlerData fetchData args1 (hd_fetchEndTimestamp handlerData),
       st)
  end.

(** The events of one request as the instrumentation sends them: the same
    objects come back when the request is over, with [endTimestamp] set. *)
Definition xhrEnded (t : Q) (more : list (string * JsVal))
    (handlerData : option XhrHandlerData) : option XhrHandlerData :=
  match handlerData with
  | Some (mkXhrHandlerData (Some x) _) =>
    Some (mkXhrHandlerData
            (Some (mkXMLHttpRequest
                     (match __sentry_xhr__ x with
                      | Some sx =>
                        Some (mkSentryXhr (xhr_method sx) (xhr_url sx)
                                (xhr_more sx ++ more))
                      | None => None
                      end)
                     (__sentry_own_request__ x) (__sentry_xhr_activity_id__ x)
                     (setRequestHeader x) (requestHeaders x)))
            (Some t))
  | _ => handlerData
  end.

Definition fetchEnded (t : Q) (handlerData : FetchHandlerData)
  : FetchHandlerData :=
  mkFetchHandlerData (hd_fetchData handlerData) (hd_args1 handlerData) (Some t).

(** The value of header [k] among the entries of an object. *)
Definition headerOf (k : string) (entries : list (string * HeaderValue))
  : option HeaderValue :=
  option_map snd (List.find (fun e => String.eqb (fst e) k) entries).

(** The activity id an xhr event carries, 0 if there is none. *)
Definition recordedId (handlerData : option XhrHandlerData) : nat :=
  match handlerData with
  | Some (mkXhrHandlerData (Some x) _) =>
    default 0 (__sentry_xhr_activity_id__ x)
  | _ => 0
  end.

(** The headers set on the request of an xhr event. *)
Definition headersSet (handlerData : option XhrHandlerData)
  : list (string * HeaderValue) :=
  match handlerData with
  | Some (mkXhrHandlerData (Some x) _) => requestHeaders x
  | _ => []
  end.

(** Whether [Tracing._getCurrentHub] is there and yields a hub. *)
Definition hubYields (st : State) : bool :=
  match _getCurrentHub st with
  | Some ReturnsHub => true
  | _ => false
  end.

(** An xhr request as the instrumentation announces it, and what has been
    added to its description when it is over. *)
Definition getApi : XMLHttpRequest :=
  mkXMLHttpRequest (Some (mkSentryXhr "GET" "/api" [])) false None true [].

Definition ok200 : list (string * JsVal) := [("status_code", VNum 200)].

Definition anyUrl (url : string) : bool := true.

(** A fetch call with headers given as an object. *)
Definition postForm : FetchHandlerData :=
  mkFetchHandlerData
    (mkFetchData "POST" "/form" None)
    (Some (mkFetchOptions
             (Some (HeadersObject [("accept", HeaderText "text/html")]))
             [("method", VStr "POST")]))
    None.

(** [c] is the [span.finish()] of [popActivity] on span [s]. *)
Definition isActivityFinishOf (s : Span) (c : Call) : bool :=
  match c with
  | SpanFinish s' false => Nat.eqb s' s
  | _ => false
  end.

(** How often [popActivity] has finished span [s] in the calls [cs]. *)
Definition activityFinishes (s : Span) (cs : list Call) : nat :=
  length (List.filter (isActivityFinishOf s) cs).

(** No span is finished by [popActivity] more than once: the spans of the
    registered activities and those not yet handed out have not been
    finished by it, and no two registered activities share a span. *)
Record Once (st : State) : Prop := mkOnce {
  once_calls : forall s, activityFinishes s (calls st) <= 1;
  once_open :
    forall id a s, _activities st !! id = Some a -> span a = Some s ->
                   activityFinishes s (calls st) = 0;
  once_fresh :
    forall s, nextSpan st <= s -> activityFinishes s (calls st) = 0;
  once_distinct :
    forall id id' a a' s,
      _activities st !! id = Some a -> _activities st !! id' = Some a' ->
      span a = Some s -> span a' = Some s -> id = id';
}.

Definition isPushOrPop (o : Op) : bool :=
  match o with
  | PushActivity _ _ _ _ | PopActivity _ _ _ => true
  | _ => false
  end.

(** A request is traced and popped twice by hand. *)
Definition poppedTwice : State :=
  run [PopActivity 0 2 None; PopActivity 0 2 None] requestInFlight.

(** ** Proof tools *)

Ltac unfold_ops :=
  unfold startIdleTransaction, pushActivity, popActivity, finishIdleTransaction,
    setTransactionStatus, updateTransactionName, _isEnabled, setTimeout,
    clearTimeout, hub_startSpan, scope_setSpan, bootstrapDelay, record in *.

Ltac bools :=
  repeat match goal with
         | b : bool |- _ => destruct b; simpl in *; try discriminate
         end.

(** ** The enablement gate *)

Lemma isEnabled_cases u st :
  (exists b, _enabled st = Some b /\ _isEnabled u st = (b, st)) \/
  (_enabled st = None /\ sampleRate st = None /\ _isEnabled u st = (false, st)) \/
  (exists r, _enabled st = None /\ sampleRate st = Some r /\
     _isEnabled u st =
       (Qle_bool u r,
        set_enabled (Some (Qle_bool u r))
                    (set_randomDraws (S (randomDraws st)) st))).
Proof.
  unfold _isEnabled, sampleRate.
  destruct (_enabled st) as [b|]; [left; eauto|].
  destruct (options st) as [o|]; [|right; left; eauto].
  destruct (tracesSampleRate o) as [r|]; [|right; left; eauto].
  right; right. exists r. unfold Qgtb. destruct (Qle_bool u r); eauto.
Qed.

Lemma isEnabled_cached u st b :
  _enabled st = Some b -> _isEnabled u st = (b, st).
Proof. intros H. unfold _isEnabled. now rewrite H. Qed.

Lemma isEnabled_true_caches u st :
  fst (_isEnabled u st) = true -> _enabled (gate u st) = Some true.
Proof.
  unfold gate.
  destruct (isEnabled_cases u st)
    as [(b & Hb & ->)|[(Hb & _ & ->)|(r & Hb & _ & ->)]];
    simpl; congruence.
Qed.

Lemma isEnabled_idempotent u u' st :
  _isEnabled u' (gate u st) = (fst (_isEnabled u st), gate u st).
Proof.
  unfold gate.
  destruct (isEnabled_cases u st)
    as [(b & Hb & ->)|[(Hb & Hr & ->)|(r & Hb & _ & ->)]]; simpl.
  - now apply isEnabled_cached.
  - destruct (isEnabled_cases u' st)
      as [(b & Hb' & ->)|[(_ & _ & ->)|(r & _ & Hr' & _)]];
      congruence.
  - now apply isEnabled_cached.
Qed.

(** ** The operations, field by field *)

Lemma applySpanData_calls s d st :
  applySpanData s d st = set_calls (spanDataCalls s d (calls st)) st.
Proof.
  unfold spanDataCalls, applySpanData.
  revert st. induction d as [|kv d IH]; intros st; simpl.
  - destruct st; reflexivity.
  - rewrite IH. rewrite (IH (if _ : bool then _ else _)).
    destruct st; unfold record; simpl.
    repeat case_match; reflexivity.
Qed.

Ltac crush_state st :=
  unfold_ops; destruct st; simpl in *;
  repeat (first [ progress (rewrite applySpanData_calls in *; simpl in * )
                | case_match; simplify_eq/= ]);
  intros; simplify_eq/=.

Lemma finishIdleTransaction_fields st :
  finishIdleTransaction st =
  set_calls (match _activeTransaction st with
             | Some a => SpanFinish a true :: calls st
             | None => calls st
             end) st.
Proof. crush_state st; reflexivity. Qed.

Lemma gate_fields u st :
  gate u st =
  set_enabled (_enabled (gate u st))
              (set_randomDraws (randomDraws (gate u st)) st).
Proof.
  unfold gate.
  destruct (isEnabled_cases u st)
    as [(b & Hb & ->)|[(Hb & _ & ->)|(r & Hb & _ & ->)]]; simpl;
    destruct st; simpl in *; subst; reflexivity.
Qed.

Lemma gate_cached u st b : _enabled st = Some b -> gate u st = st.
Proof. intros H. unfold gate. now rewrite (isEnabled_cached u st b H). Qed.

Lemma isEnabled_set_getCurrentHub u g st :
  _isEnabled u (set_getCurrentHub g st)
  = (fst (_isEnabled u st), set_getCurrentHub g (gate u st)).
Proof.
  unfold gate, _isEnabled. simpl.
  destruct (_enabled st); [reflexivity|].
  destruct (options st) as [o|]; [|reflexivity].
  destruct (tracesSampleRate o); reflexivity.
Qed.

Lemma pushActivity_fields u n ctx autoPopAfter st :
  pushActivity u n ctx autoPopAfter st =
  if fst (_isEnabled u st) && hasActive st
  then
    (_currentIndex st,
     mkState (_enabled (gate u st)) (options st) (_getCurrentHub st)
       (_activeTransaction st) (S (_currentIndex st))
       (match stored ctx st with
        | StoresSpan _ =>
          <[_currentIndex st := mkActivity n (Some (nextSpan st))]>
            (_activities st)
        | StoresMarker =>
          <[_currentIndex st := mkActivity n None]> (_activities st)
        | StoresNothing => _activities st
        end)
       (_debounce st)
       (keepPending (_debounce st) (timers st)
        ++ match autoPopAfter with
           | Some d =>
             [mkTimer (nextHandle st) (now st + Z.max 0 d)
                      (CbPopActivity (_currentIndex st) (Some autoPopData))]
           | None => []
           end)
       (match autoPopAfter with
        | Some _ => S (nextHandle st)
        | None => nextHandle st
        end)
       (now st) (randomDraws (gate u st))
       (match stored ctx st with
        | StoresSpan _ => S (nextSpan st)
        | _ => nextSpan st
        end)
       (scopeSpan st)
       (match stored ctx st with
        | StoresSpan c =>
          HubStartSpan (nextSpan st) c (scopeSpan st) :: calls st
        | _ => calls st
        end)
       (visibilityListeners st) (eventProcessors st) (handlers st))
  else (0, gate u st).
Proof.
  unfold gate, stored, keepPending, hasActive.
  crush_state st; bools; try reflexivity.
  all: rewrite app_nil_r; reflexivity.
Qed.

Lemma popActivity_fields u id spanData st :
  popActivity u id spanData st =
  if fst (_isEnabled u st) && negb (Nat.eqb id 0)
  then
    mkState (_enabled (gate u st)) (options st) (_getCurrentHub st)
      (_activeTransaction st) (_currentIndex st)
      (delete id (_activities st))
      (if reschedules id st then nextHandle st else _debounce st)
      (keepPending (_debounce st) (timers st)
       ++ if reschedules id st
          then [mkTimer (nextHandle st) (now st + Z.max 0 (finishDelay st))
                        CbFinishIdleTransaction]
          else [])
      (if reschedules id st then S (nextHandle st) else nextHandle st)
      (now st) (randomDraws (gate u st)) (nextSpan st) (scopeSpan st)
      (popCalls id spanData st)
      (visibilityListeners st) (eventProcessors st) (handlers st)
  else gate u st.
Proof.
  unfold popActivity.
  pose proof (gate_fields u st) as Hg. unfold gate in *.
  destruct (_isEnabled u st) as [en st1]. simpl in *.
  destruct en; simpl; [|reflexivity].
  destruct (Nat.eqb id 0); simpl; [reflexivity|].
  set (e := _enabled st1) in *. set (r := randomDraws st1) in *.
  clearbody e r. subst st1.
  unfold reschedules, hasActive, popCalls, finishDelay, keepPending.
  unfold_ops. destruct st; simpl.
  destruct (_activities0 !! id) as [[nm [s|]]|] eqn:Hl; simpl;
    try rewrite (delete_id _ _ Hl);
    try (destruct spanData; [rewrite applySpanData_calls|]); simpl;
    match goal with
    | |- context [size ?m] => destruct (size m)
    end; destruct _activeTransaction0; simpl; rewrite ?app_nil_r;
    reflexivity.
Qed.

Lemma startIdleTransaction_fields u n ctx st :
  startIdleTransaction u n ctx st =
  if fst (_isEnabled u st)
  then
    match _getCurrentHub st with
    | Some ReturnsHub =>
      (Some (nextSpan st),
       mkState (_enabled (gate u st)) (options st) (_getCurrentHub st)
         (Some (nextSpan st)) (S (_currentIndex st))
         (<[_currentIndex st := mkActivity "idleTransactionStarted" None]>
            (_activities st))
         (_debounce st)
         (keepPending (_debounce st) (timers st)
          ++ [mkTimer (nextHandle st) (now st + Z.max 0 (bootstrapDelay st))
                      (CbPopActivity (_currentIndex st) None)])
         (S (nextHandle st)) (now st) (randomDraws (gate u st))
         (S (nextSpan st)) (Some (nextSpan st))
         (ScopeSetSpan (nextSpan st)
          :: HubStartSpan (nextSpan st) (withTransaction n ctx) None
          :: calls (finishIdleTransaction st))
         (visibilityListeners st) (eventProcessors st) (handlers st))
    | _ => (None, finishIdleTransaction (gate u st))
    end
  else (None, gate u st).
Proof.
  unfold startIdleTransaction.
  pose proof (gate_fields u st) as Hg.
  pose proof (isEnabled_true_caches u st) as Hc. unfold gate in *.
  destruct (_isEnabled u st) as [en st1]. simpl in *.
  destruct en; simpl; [|reflexivity].
  rewrite Hc in * by reflexivity. clear Hc.
  set (r := randomDraws st1) in *. clearbody r. subst st1.
  unfold keepPending. unfold_ops. destruct st; simpl.
  destruct _activeTransaction0, _getCurrentHub0 as [[]|]; simpl;
    try reflexivity;
    destruct options0 as [o|]; simpl; rewrite ?app_nil_r; reflexivity.
Qed.

Lemma setTransactionStatus_fields status st :
  setTransactionStatus status st =
  set_calls (match _activeTransaction st with
             | Some a => SpanSetStatus a (VStr status) :: calls st
             | None => calls st
             end) st.
Proof. crush_state st; reflexivity. Qed.

Lemma updateTransactionName_fields n st :
  updateTransactionName n st =
  set_calls (match _getCurrentHub st with
             | Some ReturnsHub =>
               HubConfigureScope (CbSetTransaction n) :: calls st
             | _ => calls st
             end) st.
Proof. crush_state st; reflexivity. Qed.

Lemma visibilityListener_fields hidden st :
  visibilityListener hidden st =
  if hidden && hasActive st
  then set_activities ∅ (set_activeTransaction None st)
  else st.
Proof.
  unfold visibilityListener, hasActive.
  destruct hidden, (_activeTransaction st); reflexivity.
Qed.

(** ** Pending timers *)

Lemma keepPending_In t h ts :
  In t (keepPending h ts) <-> In t ts /\ handle t <> h.
Proof.
  unfold keepPending. rewrite filter_In, negb_true_iff, Nat.eqb_neq.
  reflexivity.
Qed.

Lemma finishTimers_keepPending_nil h ts :
  (forall t, In t ts -> isFinishTimer t = true -> handle t = h) ->
  List.filter isFinishTimer (keepPending h ts) = [].
Proof.
  intros H. induction ts as [|t ts IH]; simpl; [reflexivity|].
  assert (IH' : List.filter isFinishTimer (keepPending h ts) = [])
    by (apply IH; intros; apply H; simpl; auto).
  destruct (Nat.eqb (handle t) h) eqn:E; simpl; [exact IH'|].
  destruct (isFinishTimer t) eqn:F; [|exact IH'].
  apply Nat.eqb_neq in E. exfalso. apply E, H; simpl; auto.
Qed.

Lemma finishTimers_keepPending_le h ts :
  length (List.filter isFinishTimer (keepPending h ts))
  <= length (List.filter isFinishTimer ts).
Proof.
  induction ts as [|t ts IH]; simpl; [lia|].
  destruct (Nat.eqb (handle t) h); simpl;
    destruct (isFinishTimer t); simpl; lia.
Qed.

Lemma finishTimers_keepPending_In h ts t :
  In t (List.filter isFinishTimer (keepPending h ts)) ->
  In t (List.filter isFinishTimer ts).
Proof.
  rewrite !filter_In, keepPending_In. tauto.
Qed.

(** ** The invariant *)

Lemma Inv_ext st st' :
  _activeTransaction st' = _activeTransaction st ->
  _currentIndex st' = _currentIndex st ->
  _activities st' = _activities st ->
  _debounce st' = _debounce st ->
  timers st' = timers st ->
  nextSpan st' = nextSpan st ->
  scopeSpan st' = scopeSpan st ->
  Inv st -> Inv st'.
Proof.
  intros E1 E2 E3 E4 E5 E6 E7 [].
  split; unfold pendingFinishTimers in *;
    rewrite ?E1, ?E2, ?E3, ?E4, ?E5, ?E6, ?E7; assumption.
Qed.

Ltac same_core := eapply Inv_ext; [..|eassumption]; reflexivity.

Lemma Inv_initial : Inv initial.
Proof.
  split; simpl; try (intros; discriminate); try lia; try tauto.
Qed.

Lemma Inv_gate u st : Inv st -> Inv (gate u st).
Proof. intros H. rewrite gate_fields. same_core. Qed.

Lemma Inv_finishIdleTransaction st : Inv st -> Inv (finishIdleTransaction st).
Proof. intros H. rewrite finishIdleTransaction_fields. same_core. Qed.

Lemma Inv_setTransactionStatus status st :
  Inv st -> Inv (setTransactionStatus status st).
Proof. intros H. rewrite setTransactionStatus_fields. same_core. Qed.

Lemma Inv_updateTransactionName n st :
  Inv st -> Inv (updateTransactionName n st).
Proof. intros H. rewrite updateTransactionName_fields. same_core. Qed.

Lemma Inv_clearTimeout h st : Inv st -> Inv (clearTimeout h st).
Proof.
  intros [].
  split; unfold pendingFinishTimers in *; simpl; try assumption.
  - fold (keepPending h (timers st)).
    etransitivity; [apply finishTimers_keepPending_le|assumption].
  - intros t Ht. fold (keepPending h (timers st)) in Ht.
    apply keepPending_In in Ht. apply inv_debounce0, Ht.
Qed.

Lemma Inv_pushActivity u n ctx autoPopAfter st :
  Inv st -> Inv (snd (pushActivity u n ctx autoPopAfter st)).
Proof.
  intros H. rewrite pushActivity_fields.
  destruct (fst (_isEnabled u st) && hasActive st) eqn:E; simpl;
    [|now apply Inv_gate].
  apply andb_true_iff in E as [_ Ha]. unfold hasActive in Ha.
  destruct H.
  split; unfold pendingFinishTimers; simpl.
  - lia.
  - intros id a. destruct (stored ctx st); intros Hl;
      try (apply inv_ids0 in Hl; lia);
      (destruct (decide (id = _currentIndex st)) as [->|Hne];
       [lia | rewrite lookup_insert_ne in Hl by congruence;
              apply inv_ids0 in Hl; lia]).
  - rewrite List.filter_app, finishTimers_keepPending_nil by assumption.
    destruct autoPopAfter; simpl; lia.
  - intros t Ht Hf. apply in_app_or in Ht as [Ht|Ht].
    + exfalso.
      assert (Hin : In t (List.filter isFinishTimer
                            (keepPending (_debounce st) (timers st))))
        by (apply filter_In; auto).
      rewrite finishTimers_keepPending_nil in Hin by assumption.
      destruct Hin.
    + destruct autoPopAfter; simpl in Ht; [|tauto].
      destruct Ht as [<-|[]]. discriminate.
  - assumption.
  - intros a Hact. apply inv_active_span0 in Hact.
    destruct (stored ctx st); lia.
  - intros id a s.
    destruct (stored ctx st); intros Hl Hs;
      try (specialize (inv_activity_spans0 _ _ _ Hl Hs); lia);
      (destruct (decide (id = _currentIndex st)) as [->|Hne];
       [rewrite lookup_insert_eq in Hl; simplify_eq/=; try lia
       |rewrite lookup_insert_ne in Hl by congruence;
        specialize (inv_activity_spans0 _ _ _ Hl Hs); lia]).
  - intros Hn. rewrite Hn in Ha. discriminate.
Qed.

Lemma Inv_popActivity u id spanData st :
  Inv st -> Inv (popActivity u id spanData st).
Proof.
  intros H. rewrite popActivity_fields.
  destruct (fst (_isEnabled u st) && negb (Nat.eqb id 0)); simpl;
    [|now apply Inv_gate].
  destruct H.
  assert (Hnil := finishTimers_keepPending_nil _ _ inv_debounce0).
  split; unfold pendingFinishTimers; simpl.
  - assumption.
  - intros i a Hl. apply lookup_delete_Some in Hl as [_ Hl]. eauto.
  - rewrite List.filter_app, Hnil.
    destruct (reschedules id st); simpl; lia.
  - intros t Ht Hf. apply in_app_or in Ht as [Ht|Ht].
    + exfalso.
      assert (Hin : In t (List.filter isFinishTimer
                            (keepPending (_debounce st) (timers st))))
        by (apply filter_In; auto).
      rewrite Hnil in Hin. destruct Hin.
    + destruct (reschedules id st); simpl in Ht; [|tauto].
      destruct Ht as [<-|[]]. reflexivity.
  - assumption.
  - assumption.
  - intros i a s Hl. apply lookup_delete_Some in Hl as [_ Hl]. eauto.
  - intros Hn. rewrite (inv_registry0 Hn). apply delete_empty.
Qed.

Lemma Inv_startIdleTransaction u n ctx st :
  Inv st -> Inv (snd (startIdleTransaction u n ctx st)).
Proof.
  intros H. rewrite startIdleTransaction_fields.
  destruct (fst (_isEnabled u st)); simpl; [|now apply Inv_gate].
  destruct (_getCurrentHub st) as [[]|]; simpl;
    try now apply Inv_finishIdleTransaction, Inv_gate.
  destruct H.
  assert (Hnil := finishTimers_keepPending_nil _ _ inv_debounce0).
  split; unfold pendingFinishTimers; simpl.
  - lia.
  - intros id a Hl.
    destruct (decide (id = _currentIndex st)) as [->|Hne]; [lia|].
    rewrite lookup_insert_ne in Hl by congruence.
    apply inv_ids0 in Hl. lia.
  - rewrite List.filter_app, Hnil. simpl. lia.
  - intros t Ht Hf. apply in_app_or in Ht as [Ht|Ht].
    + exfalso.
      assert (Hin : In t (List.filter isFinishTimer
                            (keepPending (_debounce st) (timers st))))
        by (apply filter_In; auto).
      rewrite Hnil in Hin. destruct Hin.
    + destruct Ht as [<-|[]]. discriminate.
  - intros a Ha. exact Ha.
  - intros a Ha. simplify_eq. lia.
  - intros id a s Hl Hs.
    destruct (decide (id = _currentIndex st)) as [->|Hne].
    + rewrite lookup_insert_eq in Hl. simplify_eq/=.
    + rewrite lookup_insert_ne in Hl by congruence.
      specialize (inv_activity_spans0 _ _ _ Hl Hs). lia.
  - discriminate.
Qed.

Lemma Inv_visibilityListener hidden st :
  Inv st -> Inv (visibilityListener hidden st).
Proof.
  intros H. rewrite visibilityListener_fields.
  destruct (hidden && hasActive st); [|assumption].
  destruct H. split; unfold pendingFinishTimers; simpl;
    try assumption; try discriminate; try reflexivity.
Qed.

Lemma iter_preserves (P : State -> Prop) (f : State -> State) n st :
  (forall st, P st -> P (f st)) -> P st -> P (Nat.iter n f st).
Proof. intros Hf H. induction n; simpl; auto. Qed.

Lemma eventProcessor_state self u event st :
  snd (eventProcessor self u event st) = if self then gate u st else st.
Proof.
  unfold eventProcessor, gate. destruct self; simpl; [|reflexivity].
  destruct (_isEnabled u st) as [en st1]; simpl.
  destruct en; [|reflexivity].
  destruct (options st1); [|reflexivity].
  match goal with |- context [if ?c then _ else _] => destruct c end;
    reflexivity.
Qed.

(** ** Properties kept by every operation

    A property of the state that the building blocks keep is kept by
    [setupOnce], by the adapters, by timers firing, and so by every step. *)

Section Preservation.

Variable P : State -> Prop.

Hypothesis P_options : forall v st, P st -> P (set_options v st).
Hypothesis P_getCurrentHub :
  forall v st, P st -> P (set_getCurrentHub v st).
Hypothesis P_handlers : forall v st, P st -> P (set_handlers v st).
Hypothesis P_listeners :
  forall v st, P st -> P (set_visibilityListeners v st).
Hypothesis P_processors :
  forall v st, P st -> P (set_eventProcessors v st).
Hypothesis P_now : forall v st, P st -> P (set_now v st).
Hypothesis P_gate : forall u st, P st -> P (gate u st).
Hypothesis P_clearTimeout : forall h st, P st -> P (clearTimeout h st).
Hypothesis P_finish : forall st, P st -> P (finishIdleTransaction st).
Hypothesis P_status :
  forall status st, P st -> P (setTransactionStatus status st).
Hypothesis P_name : forall n st, P st -> P (updateTransactionName n st).
Hypothesis P_push :
  forall u n ctx a st, P st -> P (snd (pushActivity u n ctx a st)).
Hypothesis P_pop : forall u id d st, P st -> P (popActivity u id d st).
Hypothesis P_start :
  forall u n ctx st, P st -> P (snd (startIdleTransaction u n ctx st)).
Hypothesis P_listener :
  forall hidden st, P st -> P (visibilityListener hidden st).

Lemma kept_if (b : bool) st1 st2 :
  P st1 -> P st2 -> P (if b then st1 else st2).
Proof. destruct b; auto. Qed.

Ltac walk :=
  repeat first
    [ assumption
    | apply P_processors | apply P_listeners | apply P_handlers
    | apply P_getCurrentHub | apply P_options | apply P_now
    | apply P_start | apply P_finish | apply P_pop | apply P_clearTimeout
    | apply kept_if ].

Lemma kept_setupOnce g env u st : P st -> P (setupOnce g env u st).
Proof.
  intros H. unfold setupOnce, addInstrumentationHandler.
  assert (H1 : P (gate u (set_getCurrentHub (Some g) st)))
    by (apply P_gate, P_getCurrentHub, H).
  unfold gate in H1.
  destruct (_isEnabled u (set_getCurrentHub (Some g) st)) as [en st1].
  simpl in H1. destruct en; simpl; [|assumption].
  destruct (options st1) as [o|]; [|assumption].
  destruct (location_href env) as [href|]; walk.
Qed.

Lemma kept_historyCallback env u st : P st -> P (historyCallback env u st).
Proof.
  intros H. unfold historyCallback.
  destruct (options st) as [o|]; [|assumption].
  destruct (location_href env) as [href|]; walk.
Qed.

Lemma kept_fireTimer u h st : P st -> P (fireTimer u h st).
Proof.
  intros H. unfold fireTimer.
  destruct (List.find _ (timers st)) as [t|]; [|assumption].
  destruct (due t <=? now st)%Z; [|assumption].
  destruct (callback t); simpl; walk.
Qed.

Lemma kept_step o st : P st -> P (step o st).
Proof.
  intros H. destruct o; unfold step, visibilitychange, constructor, elapse.
  - now apply P_options.
  - now apply kept_setupOnce.
  - now apply P_start.
  - now apply P_name.
  - now apply P_finish.
  - now apply P_status.
  - now apply P_push.
  - now apply P_pop.
  - apply iter_preserves; auto.
  - apply iter_preserves; auto using kept_historyCallback.
  - apply iter_preserves; [|assumption].
    intros st' H'. rewrite eventProcessor_state. destruct self; auto.
  - now apply kept_fireTimer.
  - now apply P_now.
Qed.

Lemma kept_run ops st : P st -> P (run ops st).
Proof.
  unfold run. revert st.
  induction ops as [|o ops IH]; intros st H; simpl; auto using kept_step.
Qed.

Lemma kept_reachable st : P initial -> reachable st -> P st.
Proof. intros H0 Hr. induction Hr; auto using kept_step. Qed.

End Preservation.

Theorem reachable_Inv st : reachable st -> Inv st.
Proof.
  apply kept_reachable; try exact Inv_initial; intros;
    try (eapply Inv_ext; [..|eassumption]; reflexivity);
    auto using Inv_gate, Inv_clearTimeout, Inv_finishIdleTransaction,
      Inv_setTransactionStatus, Inv_updateTransactionName, Inv_pushActivity,
      Inv_popActivity, Inv_startIdleTransaction, Inv_visibilityListener.
Qed.

Lemma reachable_run ops st : reachable st -> reachable (run ops st).
Proof.
  unfold run. revert st.
  induction ops as [|o ops IH]; intros st H; simpl; [assumption|].
  apply IH. now constructor.
Qed.

(** ** The gate is decided once *)

Lemma enabled_kept_by_run b ops st :
  _enabled st = Some b -> _enabled (run ops st) = Some b.
Proof.
  apply (kept_run (fun st => _enabled st = Some b)); clear; intros;
    try assumption.
  - unfold gate. now rewrite (isEnabled_cached _ _ _ H).
  - now rewrite finishIdleTransaction_fields.
  - now rewrite setTransactionStatus_fields.
  - now rewrite updateTransactionName_fields.
  - rewrite pushActivity_fields. unfold gate.
    rewrite (isEnabled_cached _ _ _ H).
    destruct (_ && _); simpl; assumption.
  - rewrite popActivity_fields. unfold gate.
    rewrite (isEnabled_cached _ _ _ H).
    destruct (_ && _); simpl; assumption.
  - rewrite startIdleTransaction_fields. unfold gate.
    rewrite (isEnabled_cached _ _ _ H). simpl.
    destruct b; [|assumption].
    destruct (_getCurrentHub st) as [[]|];
      rewrite ?finishIdleTransaction_fields; simpl; assumption.
  - rewrite visibilityListener_fields. destruct (_ && _); simpl; assumption.
Qed.

(** C5.  The first call of [_isEnabled] made while a numeric sample rate
    [r] is configured draws one random value [u], returns [u <= r] and
    caches it; from then on, whatever else happens, every call returns the
    cached value and leaves the state, and so the number of draws,
    untouched.  A call made while no numeric sample rate is configured
    returns [false] and changes nothing, so that the first call after a
    constructor configured a rate still draws. *)
Theorem isEnabled_decided_once (u : Q) (st : State) :
  (forall r,
      _enabled st = None -> sampleRate st = Some r ->
      (fst (_isEnabled u st) = true <-> (u <= r)%Q) /\
      _enabled (gate u st) = Some (fst (_isEnabled u st)) /\
      randomDraws (gate u st) = S (randomDraws st) /\
      forall ops u',
        _isEnabled u' (run ops (gate u st))
        = (fst (_isEnabled u st), run ops (gate u st))) /\
  (forall b, _enabled st = Some b -> _isEnabled u st = (b, st)) /\
  (_enabled st = None -> sampleRate st = None ->
   _isEnabled u st = (false, st) /\
   forall p r u',
     tracesSampleRate (mergeOptions p) = Some r ->
     (fst (_isEnabled u' (constructor p (gate u st))) = true <-> (u' <= r)%Q) /\
     randomDraws (gate u' (constructor p (gate u st))) = S (randomDraws st)).
Proof.
  split; [|split].
  - intros r Hn Hr. unfold gate.
    destruct (isEnabled_cases u st)
      as [(b & Hb & E)|[(_ & Hr' & E)|(r' & _ & Hr' & E)]];
      [congruence|congruence|].
    assert (r' = r) by congruence. subst r'. rewrite E. simpl.
    repeat split; try apply Qle_bool_iff.
    intros ops u'. apply isEnabled_cached.
    now apply enabled_kept_by_run.
  - intros b Hb. now apply isEnabled_cached.
  - intros Hn Hr. unfold gate.
    destruct (isEnabled_cases u st)
      as [(b & Hb & E)|[(_ & _ & E)|(r' & _ & Hr' & E)]];
      [congruence| |congruence].
    rewrite E. split; [reflexivity|]. simpl. intros p r u' Hp.
    destruct (isEnabled_cases u' (constructor p st))
      as [(b & Hb & E')|[(_ & Hr' & E')|(r' & _ & Hr' & E')]].
    + simpl in Hb. congruence.
    + unfold sampleRate in Hr'. simpl in Hr'. congruence.
    + unfold sampleRate in Hr'. simpl in Hr'.
      assert (r' = r) by congruence. subst r'. rewrite E'. simpl.
      split; [apply Qle_bool_iff|reflexivity].
Qed.

Lemma isEnabled_decided_once_witness :
  (fst (_isEnabled (1 # 2) (constructor None initial)) = true
   <-> (1 # 2 <= 1)%Q) /\
  _isEnabled (1 # 2) afterPageload = (true, afterPageload) /\
  _isEnabled (1 # 2) initial = (false, initial).
Proof.
  split; [|split].
  - apply (proj1 (isEnabled_decided_once (1 # 2) (constructor None initial)) 1%Q);
      reflexivity.
  - apply (proj1 (proj2 (isEnabled_decided_once (1 # 2) afterPageload)) true).
    reflexivity.
  - apply (proj2 (proj2 (isEnabled_decided_once (1 # 2) initial)));
      reflexivity.
Defined.

(** ** Finishing the idle transaction *)

(** C3 as found in the code.  With the pageload transaction active,
    [finishIdleTransaction] leaves the reference in place, and a second
    call finishes the same transaction again. *)
Lemma finishIdleTransaction_reference_stays :
  _activeTransaction afterPageload = Some 0 /\
  _activeTransaction (finishIdleTransaction afterPageload) <> None /\
  finishCount 0 (finishIdleTransaction (finishIdleTransaction afterPageload))
  = 2.
Proof. vm_compute. repeat split; discriminate. Qed.

(** C3, amended.  When a transaction is active, [finishIdleTransaction]
    calls [finish(true)] on it, the end timestamp being that of the last
    finished span, and changes nothing in the class: the reference to the
    transaction stays.  When none is active it does nothing.  Two calls in
    a row call [finish(true)] twice, both times on the same transaction. *)
Theorem finishIdleTransaction_finishes_and_keeps (st : State) :
  _activeTransaction (finishIdleTransaction st) = _activeTransaction st /\
  set_calls (calls st) (finishIdleTransaction st) = st /\
  (forall a,
      _activeTransaction st = Some a ->
      calls (finishIdleTransaction st) = SpanFinish a true :: calls st /\
      calls (finishIdleTransaction (finishIdleTransaction st))
      = SpanFinish a true :: SpanFinish a true :: calls st) /\
  (_activeTransaction st = None -> finishIdleTransaction st = st).
Proof.
  rewrite !finishIdleTransaction_fields. simpl.
  repeat split.
  - destruct st; reflexivity.
  - now rewrite H.
  - now rewrite H.
  - intros H. rewrite H. destruct st; reflexivity.
Qed.

Lemma finishIdleTransaction_finishes_and_keeps_witness :
  calls (finishIdleTransaction afterPageload)
  = SpanFinish 0 true :: calls afterPageload /\
  finishIdleTransaction initial = initial.
Proof.
  split.
  - apply (proj1 (proj2 (proj2
             (finishIdleTransaction_finishes_and_keeps afterPageload))) 0).
    reflexivity.
  - apply (proj2 (proj2 (proj2
             (finishIdleTransaction_finishes_and_keeps initial)))).
    reflexivity.
Defined.

(** ** Starting a transaction keeps the registry *)

(** C2 as found in the code: a request is in flight under the pageload
    transaction when a navigation starts a new one.  The new transaction
    is bound, and the activities of the replaced transaction, the request
    and the old bootstrap activity, are still in the registry. *)
Lemma startIdleTransaction_registry_not_cleared :
  _activities requestInFlight !! 2 = Some (mkActivity "xhr" (Some 1)) /\
  fst (startIdleTransaction 0 "/next" (Some navigation) requestInFlight)
  = Some 2 /\
  _activities
    (snd (startIdleTransaction 0 "/next" (Some navigation) requestInFlight))
    !! 2 = Some (mkActivity "xhr" (Some 1)) /\
  _activities
    (snd (startIdleTransaction 0 "/next" (Some navigation) requestInFlight))
    !! 1 = Some (mkActivity "idleTransactionStarted" None).
Proof. vm_compute. repeat split. Qed.

(** C2, amended.  A call of [startIdleTransaction] that creates a new
    transaction binds it as the active one and does not clear the registry:
    the registry afterwards is the one before the call with the bootstrap
    activity added under the next id, so in a reachable state every activity
    of the replaced transaction is still registered. *)
Theorem startIdleTransaction_keeps_registry
    (u : Q) (n : string) (ctx : option SpanContext) (st st' : State) (s : Span) :
  startIdleTransaction u n ctx st = (Some s, st') ->
  _activeTransaction st' = Some s /\
  _activities st'
  = <[_currentIndex st := mkActivity "idleTransactionStarted" None]>
      (_activities st) /\
  (reachable st ->
   forall id a, _activities st !! id = Some a -> _activities st' !! id = Some a).
Proof.
  rewrite startIdleTransaction_fields.
  destruct (fst (_isEnabled u st)); [|discriminate].
  destruct (_getCurrentHub st) as [[]|]; try discriminate.
  intros E. simplify_eq/=. repeat split.
  intros Hr id a Hl. apply reachable_Inv in Hr.
  destruct Hr. specialize (inv_ids0 _ _ Hl).
  rewrite lookup_insert_ne by lia. exact Hl.
Qed.

Lemma startIdleTransaction_keeps_registry_witness :
  _activities
    (snd (startIdleTransaction 0 "/next" (Some navigation) requestInFlight))
  = <[3 := mkActivity "idleTransactionStarted" None]>
      (_activities requestInFlight).
Proof.
  apply (startIdleTransaction_keeps_registry 0 "/next" (Some navigation)
           requestInFlight _ 2).
  vm_compute. reflexivity.
Defined.

(** ** The event processor *)

(** C4 as found in the code, with tracing enabled and a maximum duration
    of 600 s.  A transaction event that starts at timestamp 0 and ends at
    700 is delivered although it lasted longer than the maximum, because a
    timestamp of 0 counts as missing; and an event of 601 s is delivered
    when the integration is not installed on the current hub. *)
Lemma eventProcessor_delivers_outdated :
  option_map maxTransactionDuration (options afterPageload)
  = Some 600%float /\
  fst (eventProcessor true 0 (transactionEvent 0 700) afterPageload)
  = Delivered (transactionEvent 0 700) /\
  fst (eventProcessor false 0 (transactionEvent 1000 1601) afterPageload)
  = Delivered (transactionEvent 1000 1601).
Proof. vm_compute. repeat split. Qed.

(** Scenario E of the specification. *)
Example eventProcessor_scenario_E :
  fst (eventProcessor true 0 (transactionEvent 1000 1601) afterPageload)
  = Dropped /\
  fst (eventProcessor true 0 (transactionEvent 1000 1599) afterPageload)
  = Delivered (transactionEvent 1000 1599) /\
  fst (eventProcessor true 0 (transactionEvent 1000 11000)
         (constructor
            (Some (mkPartialOptions None None None None None
                                    (Some 0%float) None))
            afterPageload))
  = Delivered (transactionEvent 1000 11000).
Proof. vm_compute. repeat split. Qed.

(** The duration is the rounded difference of two doubles, as the code
    computes it.  With a maximum of 600 s, an event from [3 * 2^-45] to
    [600 + 2^-43] is delivered: its exact duration is above 600, the
    double nearest to it is 600.  An event with a [NaN] timestamp is
    delivered as one without timestamp. *)
Example eventProcessor_rounds :
  fst (eventProcessor true 0
         (transactionEvent 0x3p-45 (PrimFloat.add 600 0x1p-43)) afterPageload)
  = Delivered (transactionEvent 0x3p-45 (PrimFloat.add 600 0x1p-43)) /\
  fst (eventProcessor true 0 (transactionEvent 1000 nan) afterPageload)
  = Delivered (transactionEvent 1000 nan).
Proof. vm_compute. repeat split. Qed.

(** C4, amended.  While the integration is installed on the current hub
    and tracing is enabled, a transaction event whose [timestamp] and
    [start_timestamp] are both present and truthy (neither 0 nor [NaN]) is
    dropped exactly when [maxTransactionDuration !== 0] and the duration
    [timestamp - start_timestamp], computed in doubles as the code does,
    is above [maxTransactionDuration] or below 0, and is delivered
    unchanged otherwise.  With [maxTransactionDuration] 0 every event is
    delivered unchanged, whatever its duration. *)
Theorem eventProcessor_drops_outdated
    (u : Q) (st : State) (o : TracingOptions) (event : Event) :
  options st = Some o ->
  (forall t s,
      fst (_isEnabled u st) = true ->
      type event = Some "transaction" ->
      timestamp event = Some t -> start_timestamp event = Some s ->
      truthyNumber t = true -> truthyNumber s = true ->
      (fst (eventProcessor true u event st) = Dropped <->
       PrimFloat.eqb (maxTransactionDuration o) 0 = false /\
       (PrimFloat.ltb (maxTransactionDuration o) (PrimFloat.sub t s) = true \/
        PrimFloat.ltb (PrimFloat.sub t s) 0 = true)) /\
      (fst (eventProcessor true u event st) <> Dropped ->
       fst (eventProcessor true u event st) = Delivered event)) /\
  (forall self,
      PrimFloat.eqb (maxTransactionDuration o) 0 = true ->
      fst (eventProcessor self u event st) = Delivered event).
Proof.
  intros Ho.
  assert (Hg : options (gate u st) = Some o)
    by (rewrite gate_fields; exact Ho).
  unfold eventProcessor, gate in *.
  destruct (_isEnabled u st) as [en st1]. simpl in *. split.
  - intros t s -> Ht Hts Hss Ht0 Hs0. rewrite Hg.
    unfold isTransaction, isOutdatedTransaction.
    rewrite Ht, Hts, Hss, Ht0, Hs0. simpl.
    destruct (PrimFloat.eqb (maxTransactionDuration o) 0) eqn:E0; simpl.
    + split; [|reflexivity].
      split; [discriminate|]. intros [Hne _]. discriminate.
    + destruct (PrimFloat.ltb (maxTransactionDuration o) (PrimFloat.sub t s))
        eqn:E1; simpl.
      * split; [|congruence]. split; auto.
      * destruct (PrimFloat.ltb (PrimFloat.sub t s) 0) eqn:E2; simpl.
        -- split; [|congruence]. split; auto.
        -- split; [|reflexivity]. split; [discriminate|].
           intros [_ [H|H]]; discriminate.
  - intros self E0.
    destruct self; simpl; [|reflexivity].
    destruct en; simpl; [|reflexivity].
    rewrite Hg, E0. reflexivity.
Qed.

Lemma eventProcessor_drops_outdated_witness :
  (fst (eventProcessor true 0 (transactionEvent 1000 1601) afterPageload)
   = Dropped <->
   PrimFloat.eqb 600 0 = false /\
   (PrimFloat.ltb 600 (PrimFloat.sub 1601 1000) = true \/
    PrimFloat.ltb (PrimFloat.sub 1601 1000) 0 = true)) /\
  fst (eventProcessor true 0 (transactionEvent 1000 11000)
         (constructor
            (Some (mkPartialOptions None None None None None
                                    (Some 0%float) None))
            afterPageload))
  = Delivered (transactionEvent 1000 11000).
Proof.
  split.
  - apply (proj1 (eventProcessor_drops_outdated 0 afterPageload defaults
                    (transactionEvent 1000 1601) eq_refl)
             1601%float 1000%float); reflexivity.
  - apply (proj2 (eventProcessor_drops_outdated 0
                    (constructor
                       (Some (mkPartialOptions None None None None None
                                               (Some 0%float) None))
                       afterPageload)
                    (mergeOptions
                       (Some (mkPartialOptions None None None None None
                                               (Some 0%float) None)))
                    (transactionEvent 1000 11000) eq_refl) true).
    reflexivity.
Defined.

(** ** Popping an activity that is not registered *)

Lemma popCalls_absent id d st :
  _activities st !! id = None -> popCalls id d st = calls st.
Proof. unfold popCalls. now intros ->. Qed.

Lemma unregistered_pop_fields u id d st :
  _activities st !! id = None ->
  _activities (popActivity u id d st) = _activities st /\
  _activeTransaction (popActivity u id d st) = _activeTransaction st /\
  _currentIndex (popActivity u id d st) = _currentIndex st /\
  calls (popActivity u id d st) = calls st.
Proof.
  intros Hl. rewrite popActivity_fields.
  destruct (_ && _); simpl.
  - rewrite (delete_id _ _ Hl), (popCalls_absent _ _ _ Hl). auto.
  - rewrite gate_fields. simpl. auto.
Qed.

(** C1 as found in the code.  Activity 2 was pushed with an auto-pop
    after 700 ms and popped by hand; the registry is empty and the finish
    timer is pending for 1000 ms.  When the auto-pop timer fires at 700 ms
    for the activity that is gone, the pending finish timer is cancelled
    and a new one is set for 1200 ms; a repeated manual pop at 500 ms
    likewise replaces the pending timer by a new one. *)
Lemma auto_pop_restarts_finish_timer :
  _activities finishPending !! 2 = None /\
  pendingFinishTimers finishPending
  = [mkTimer 3 1000 CbFinishIdleTransaction] /\
  pendingFinishTimers (run [Elapse 200; FireTimer 0 2] finishPending)
  = [mkTimer 4 1200 CbFinishIdleTransaction] /\
  pendingFinishTimers (popActivity 0 2 None finishPending)
  = [mkTimer 4 1000 CbFinishIdleTransaction] /\
  popActivity 0 2 None finishPending <> finishPending.
Proof.
  vm_compute. repeat split. intros H. discriminate H.
Qed.

(** C1, amended.  [popActivity] with id 0 does nothing beyond consulting
    the gate.  With an id that is not in the registry it leaves the
    registry, the active transaction, the id counter and the spans
    untouched; past the gate (tracing enabled, id not 0) it still cancels
    the pending finish timer and, when the registry is empty and a
    transaction is active, sets a new one an idle timeout from now.
    Consequently a second [popActivity] with the same id, by hand or from
    an auto-pop timer, changes neither the registry nor the active
    transaction nor any span. *)
Theorem popActivity_absent
    (u : Q) (data : option (list (string * JsVal))) (st : State) :
  popActivity u 0 data st = gate u st /\
  (forall id,
      _activities st !! id = None ->
      _activities (popActivity u id data st) = _activities st /\
      _activeTransaction (popActivity u id data st) = _activeTransaction st /\
      _currentIndex (popActivity u id data st) = _currentIndex st /\
      calls (popActivity u id data st) = calls st /\
      (fst (_isEnabled u st) = true -> id <> 0 ->
       timers (popActivity u id data st)
       = keepPending (_debounce st) (timers st)
         ++ if Nat.eqb (size (_activities st)) 0 && hasActive st
            then [mkTimer (nextHandle st) (now st + Z.max 0 (finishDelay st))
                          CbFinishIdleTransaction]
            else [])) /\
  (forall id u' data',
      _activities (popActivity u' id data' (popActivity u id data st))
      = _activities (popActivity u id data st) /\
      _activeTransaction (popActivity u' id data' (popActivity u id data st))
      = _activeTransaction (popActivity u id data st) /\
      calls (popActivity u' id data' (popActivity u id data st))
      = calls (popActivity u id data st)).
Proof.
  split; [|split].
  - rewrite popActivity_fields. simpl. now rewrite andb_false_r.
  - intros id Hl.
    destruct (unregistered_pop_fields u id data st Hl) as (?&?&?&?).
    repeat split; try assumption.
    intros He Hid. rewrite popActivity_fields, He.
    apply Nat.eqb_neq in Hid. rewrite Hid. simpl.
    unfold reschedules. now rewrite (delete_id _ _ Hl).
  - intros id u' data'.
    destruct (fst (_isEnabled u st) && negb (Nat.eqb id 0)) eqn:E.
    + assert (Hl : _activities (popActivity u id data st) !! id = None).
      { rewrite popActivity_fields, E. simpl. apply lookup_delete_eq. }
      destruct (unregistered_pop_fields u' id data' _ Hl) as (?&?&?&?).
      auto.
    + assert (E1 : popActivity u id data st = gate u st)
        by (rewrite popActivity_fields, E; reflexivity).
      rewrite E1, popActivity_fields, isEnabled_idempotent. simpl.
      rewrite E, gate_fields. simpl. auto.
Qed.

Lemma popActivity_absent_witness :
  _activities (popActivity 0 2 None finishPending)
  = _activities finishPending /\
  timers (popActivity 0 2 None finishPending)
  = keepPending 3 (timers finishPending)
    ++ [mkTimer 4 1000 CbFinishIdleTransaction].
Proof.
  destruct (popActivity_absent 0 None finishPending) as (_ & H & _).
  destruct (H 2 eq_refl) as (H1 & _ & _ & _ & H5).
  split; [exact H1|].
  apply H5; [reflexivity|discriminate].
Defined.

(** ** Pushing an activity *)

Lemma reachable_afterPageload : reachable afterPageload.
Proof. apply reachable_run. constructor. Qed.

Lemma GetterInstalled_same st st' :
  _activeTransaction st' = _activeTransaction st ->
  _getCurrentHub st' = _getCurrentHub st ->
  GetterInstalled st -> GetterInstalled st'.
Proof. unfold GetterInstalled, hasActive. now intros -> ->. Qed.

Lemma GetterInstalled_gate u st :
  GetterInstalled st -> GetterInstalled (gate u st).
Proof. apply GetterInstalled_same; now rewrite gate_fields. Qed.

Lemma GetterInstalled_finish st :
  GetterInstalled st -> GetterInstalled (finishIdleTransaction st).
Proof.
  apply GetterInstalled_same; now rewrite finishIdleTransaction_fields.
Qed.

Lemma GetterInstalled_push u n ctx a st :
  GetterInstalled st -> GetterInstalled (snd (pushActivity u n ctx a st)).
Proof.
  rewrite pushActivity_fields.
  destruct (_ && _); simpl; [|apply GetterInstalled_gate].
  now apply GetterInstalled_same.
Qed.

Lemma GetterInstalled_pop u id d st :
  GetterInstalled st -> GetterInstalled (popActivity u id d st).
Proof.
  rewrite popActivity_fields.
  destruct (_ && _); simpl; [|apply GetterInstalled_gate].
  now apply GetterInstalled_same.
Qed.

Lemma GetterInstalled_start u n ctx st :
  GetterInstalled st ->
  GetterInstalled (snd (startIdleTransaction u n ctx st)).
Proof.
  intros H. rewrite startIdleTransaction_fields.
  destruct (fst (_isEnabled u st)); simpl; [|now apply GetterInstalled_gate].
  destruct (_getCurrentHub st) as [[]|] eqn:Hg; simpl;
    try now apply GetterInstalled_finish, GetterInstalled_gate.
  intros _. simpl. congruence.
Qed.

Lemma GetterInstalled_listener hidden st :
  GetterInstalled st -> GetterInstalled (visibilityListener hidden st).
Proof.
  intros H. rewrite visibilityListener_fields.
  destruct (hidden && hasActive st); [|assumption].
  intros Ha. discriminate Ha.
Qed.

Lemma setupOnce_getter g env u st :
  _getCurrentHub (setupOnce g env u st) = Some g.
Proof.
  unfold setupOnce. rewrite isEnabled_set_getCurrentHub.
  destruct (fst (_isEnabled u st)) eqn:He; simpl; [|reflexivity].
  pose proof (isEnabled_true_caches u st He) as Hc.
  rewrite (gate_fields u st). simpl.
  destruct (options st) as [o|]; [|reflexivity].
  unfold addInstrumentationHandler.
  destruct (location_href env) as [href|]; simpl;
    [destruct (truthyString href); simpl|];
    rewrite ?startIdleTransaction_fields;
    destruct (traceXHR o), (traceFetch o && nativeFetch env),
      (startTransactionOnLocationChange o),
      (discardBackgroundSpans o && document env); simpl;
    try reflexivity;
    rewrite (isEnabled_cached _ _ true) by exact Hc;
    destruct g; simpl; rewrite ?finishIdleTransaction_fields;
    try rewrite (gate_cached u _ true) by exact Hc; reflexivity.
Qed.

Lemma GetterInstalled_step o st :
  GetterInstalled st -> GetterInstalled (step o st).
Proof.
  intros H.
  destruct o; unfold step, constructor, visibilitychange, elapse.
  - now apply GetterInstalled_same with st.
  - intros _. rewrite setupOnce_getter. discriminate.
  - now apply GetterInstalled_start.
  - apply GetterInstalled_same with st; auto;
      now rewrite updateTransactionName_fields.
  - now apply GetterInstalled_finish.
  - apply GetterInstalled_same with st; auto;
      now rewrite setTransactionStatus_fields.
  - now apply GetterInstalled_push.
  - now apply GetterInstalled_pop.
  - apply iter_preserves; auto using GetterInstalled_listener.
  - apply iter_preserves; [|assumption]. intros x.
    apply kept_historyCallback. intros. now apply GetterInstalled_start.
  - apply iter_preserves; [|assumption]. intros x Hx.
    rewrite eventProcessor_state.
    destruct self; auto using GetterInstalled_gate.
  - apply kept_fireTimer;
      auto using GetterInstalled_finish, GetterInstalled_pop.
  - now apply GetterInstalled_same with st.
Qed.

Lemma reachable_GetterInstalled st : reachable st -> GetterInstalled st.
Proof.
  intros Hr. induction Hr; [|now apply GetterInstalled_step].
  intros Ha. discriminate Ha.
Qed.

(** C6.  The hub getter is declared [() => Hub]: when called, it yields
    a hub.  In a reachable state whose installed getter, if there is one,
    does so, [pushActivity] returns 0 exactly when tracing is disabled or
    no transaction is active, and then changes nothing beyond consulting
    the gate.  Otherwise it returns the next id, which is greater than 0,
    and advances the counter; under that id it stores an activity holding
    a new child span of the active transaction when a span context is
    given, and a span-less marker otherwise. *)
Theorem pushActivity_allocates
    (u : Q) (n : string) (ctx : option SpanContext) (autoPopAfter : option Z)
    (st : State) :
  reachable st ->
  _getCurrentHub st <> Some ReturnsUndefined ->
  (fst (pushActivity u n ctx autoPopAfter st) = 0 <->
   fst (_isEnabled u st) = false \/ _activeTransaction st = None) /\
  (fst (pushActivity u n ctx autoPopAfter st) = 0 ->
   snd (pushActivity u n ctx autoPopAfter st) = gate u st) /\
  (fst (pushActivity u n ctx autoPopAfter st) <> 0 ->
   fst (pushActivity u n ctx autoPopAfter st) = _currentIndex st /\
   0 < fst (pushActivity u n ctx autoPopAfter st) /\
   _currentIndex (snd (pushActivity u n ctx autoPopAfter st))
   = S (_currentIndex st) /\
   (forall c,
       ctx = Some c ->
       _activities (snd (pushActivity u n ctx autoPopAfter st))
       = <[_currentIndex st := mkActivity n (Some (nextSpan st))]>
           (_activities st) /\
       calls (snd (pushActivity u n ctx autoPopAfter st))
       = HubStartSpan (nextSpan st) c (_activeTransaction st) :: calls st) /\
   (ctx = None ->
    _activities (snd (pushActivity u n ctx autoPopAfter st))
    = <[_currentIndex st := mkActivity n None]> (_activities st) /\
    calls (snd (pushActivity u n ctx autoPopAfter st)) = calls st)).
Proof.
  intros Hr Hty.
  pose proof (reachable_GetterInstalled st Hr) as Hg.
  apply reachable_Inv in Hr. destruct Hr.
  unfold GetterInstalled in Hg.
  rewrite pushActivity_fields. unfold hasActive, stored in *.
  destruct (fst (_isEnabled u st)) eqn:He; simpl.
  - destruct (_activeTransaction st) as [a|] eqn:Ha; simpl.
    + specialize (inv_scope0 a eq_refl). specialize (Hg eq_refl).
      assert (Hh : _getCurrentHub st = Some ReturnsHub)
        by (destruct (_getCurrentHub st) as [[]|]; congruence).
      rewrite Hh.
      split; [|split].
      * split; [lia|]. intros [H|H]; discriminate.
      * lia.
      * intros _. repeat split; try lia.
        -- rewrite H. reflexivity.
        -- rewrite H, inv_scope0. reflexivity.
        -- rewrite H. reflexivity.
        -- rewrite H. reflexivity.
    + split; [|split]; [split; auto|auto|]. intros H. contradiction.
  - split; [|split]; [split; auto|auto|]. intros H. contradiction.
Qed.

Lemma pushActivity_allocates_witness :
  fst (pushActivity 0 "xhr" (Some xhr) None afterPageload) = 2 /\
  _activities (snd (pushActivity 0 "xhr" (Some xhr) None afterPageload))
  = <[2 := mkActivity "xhr" (Some 1)]> (_activities afterPageload).
Proof.
  assert (Hty : _getCurrentHub afterPageload <> Some ReturnsUndefined)
    by (vm_compute; intros E; discriminate E).
  destruct (pushActivity_allocates 0 "xhr" (Some xhr) None afterPageload
              reachable_afterPageload Hty) as (_ & _ & H).
  destruct H as (H1 & _ & _ & H4 & _); [discriminate|].
  split; [exact H1|]. apply (H4 xhr); reflexivity.
Defined.

(** ** At most one finish timer *)

Lemma noNewFinishTimer_same st st0 st' :
  timers st' = timers st -> noNewFinishTimer st0 st -> noNewFinishTimer st0 st'.
Proof.
  unfold noNewFinishTimer, pendingFinishTimers. now intros ->.
Qed.

Lemma noNewFinishTimer_gate st0 u st :
  noNewFinishTimer st0 st -> noNewFinishTimer st0 (gate u st).
Proof. apply noNewFinishTimer_same. now rewrite gate_fields. Qed.

Lemma noNewFinishTimer_finish st0 st :
  noNewFinishTimer st0 st -> noNewFinishTimer st0 (finishIdleTransaction st).
Proof.
  apply noNewFinishTimer_same. now rewrite finishIdleTransaction_fields.
Qed.

Lemma noNewFinishTimer_clearTimeout st0 h st :
  noNewFinishTimer st0 st -> noNewFinishTimer st0 (clearTimeout h st).
Proof.
  unfold noNewFinishTimer, pendingFinishTimers. simpl.
  intros H t Ht. apply H. eapply finishTimers_keepPending_In, Ht.
Qed.

Lemma pendingFinishTimers_keep_and_pop h ts t :
  isFinishTimer t = false ->
  forall x, In x (List.filter isFinishTimer (keepPending h ts ++ [t])) ->
            In x (List.filter isFinishTimer ts).
Proof.
  intros Ht x. rewrite List.filter_app. simpl. rewrite Ht, app_nil_r.
  apply finishTimers_keepPending_In.
Qed.

Lemma noNewFinishTimer_push st0 u n ctx a st :
  noNewFinishTimer st0 st ->
  noNewFinishTimer st0 (snd (pushActivity u n ctx a st)).
Proof.
  intros H. rewrite pushActivity_fields.
  destruct (_ && _); simpl; [|now apply noNewFinishTimer_gate].
  intros t. unfold pendingFinishTimers. simpl. intros Ht. apply H.
  destruct a.
  - eapply pendingFinishTimers_keep_and_pop; [|exact Ht]. reflexivity.
  - rewrite app_nil_r in Ht. eapply finishTimers_keepPending_In, Ht.
Qed.

Lemma noNewFinishTimer_start st0 u n ctx st :
  noNewFinishTimer st0 st ->
  noNewFinishTimer st0 (snd (startIdleTransaction u n ctx st)).
Proof.
  intros H. rewrite startIdleTransaction_fields.
  destruct (fst (_isEnabled u st)); simpl; [|now apply noNewFinishTimer_gate].
  destruct (_getCurrentHub st) as [[]|]; simpl;
    try now apply noNewFinishTimer_finish, noNewFinishTimer_gate.
  intros t. unfold pendingFinishTimers. simpl. intros Ht. apply H.
  eapply pendingFinishTimers_keep_and_pop; [|exact Ht]. reflexivity.
Qed.

Lemma noNewFinishTimer_listener st0 hidden st :
  noNewFinishTimer st0 st -> noNewFinishTimer st0 (visibilityListener hidden st).
Proof.
  apply noNewFinishTimer_same. rewrite visibilityListener_fields.
  now destruct (_ && _).
Qed.

(** A finish timer that [popActivity] adds was set by its last lines. *)
Lemma popActivity_new_finish_timer u id d st t :
  In t (pendingFinishTimers (popActivity u id d st)) ->
  ~ In t (pendingFinishTimers st) ->
  _activities (popActivity u id d st) = ∅ /\
  _activeTransaction (popActivity u id d st) <> None.
Proof.
  rewrite popActivity_fields.
  destruct (_ && _); simpl.
  - unfold pendingFinishTimers. simpl. rewrite List.filter_app.
    intros Ht Hn. apply in_app_or in Ht as [Ht|Ht].
    + exfalso. apply Hn. eapply finishTimers_keepPending_In, Ht.
    + unfold reschedules, hasActive in *.
      destruct (Nat.eqb _ 0) eqn:E; simpl in Ht; [|destruct Ht].
      destruct (_activeTransaction st); [|destruct Ht].
      apply Nat.eqb_eq, map_size_empty_inv in E. split; [exact E|discriminate].
  - intros Ht Hn. exfalso. apply Hn.
    unfold pendingFinishTimers in *. now rewrite gate_fields in Ht.
Qed.

Lemma only_popActivity_sets_finish_timer o st t :
  In t (pendingFinishTimers (step o st)) ->
  ~ In t (pendingFinishTimers st) ->
  runsPopActivity o st = true /\
  _activities (step o st) = ∅ /\
  _activeTransaction (step o st) <> None.
Proof.
  assert (H0 : noNewFinishTimer st st) by (intros x; auto).
  intros Ht Hn.
  assert (Hno : noNewFinishTimer st (step o st) -> False)
    by (intros H; apply Hn, H, Ht).
  destruct o; unfold step, constructor, visibilitychange, elapse in *;
    simpl runsPopActivity.
  - exfalso. apply Hno. now apply noNewFinishTimer_same with st.
  - exfalso. apply Hno. apply kept_setupOnce; intros;
      try (eapply noNewFinishTimer_same; [|eassumption]; reflexivity);
      auto using noNewFinishTimer_gate, noNewFinishTimer_start.
  - exfalso. apply Hno. now apply noNewFinishTimer_start.
  - exfalso. apply Hno. apply noNewFinishTimer_same with st; [|assumption].
    now rewrite updateTransactionName_fields.
  - exfalso. apply Hno. now apply noNewFinishTimer_finish.
  - exfalso. apply Hno. apply noNewFinishTimer_same with st; [|assumption].
    now rewrite setTransactionStatus_fields.
  - exfalso. apply Hno. now apply noNewFinishTimer_push.
  - split; [reflexivity|]. eapply popActivity_new_finish_timer; eassumption.
  - exfalso. apply Hno.
    apply iter_preserves; auto using noNewFinishTimer_listener.
  - exfalso. apply Hno. apply iter_preserves; [|assumption]. intros st'.
    apply kept_historyCallback. intros. now apply noNewFinishTimer_start.
  - exfalso. apply Hno. apply iter_preserves; [|assumption]. intros st' H.
    rewrite eventProcessor_state.
    destruct self; auto using noNewFinishTimer_gate.
  - unfold fireTimer in *.
    destruct (List.find _ (timers st)) as [x|]; [|exfalso; auto].
    destruct (due x <=? now st)%Z; [|exfalso; auto].
    unfold isFinishTimer.
    destruct (callback x); simpl in *.
    + split; [reflexivity|].
      eapply popActivity_new_finish_timer; [eassumption|].
      intros Hin. apply Hn.
      revert Hin. apply (noNewFinishTimer_clearTimeout st h st H0).
    + exfalso. apply Hno.
      now apply noNewFinishTimer_finish, noNewFinishTimer_clearTimeout.
  - exfalso. apply Hno. now apply noNewFinishTimer_same with st.
Qed.

(** C9.  In every reachable state at most one finish timer is pending.
    A [pushActivity] that gets past its gate leaves none pending; a
    [popActivity] that gets past its gate cancels the pending one and
    leaves exactly the one it sets itself when the registry is then empty
    and a transaction is active, and none otherwise.  Whatever the
    operation, a finish timer that was not pending before it was set by
    [popActivity] leaving the registry empty with a transaction active. *)
Theorem at_most_one_finish_timer (st : State) :
  reachable st ->
  length (pendingFinishTimers st) <= 1 /\
  (forall u n ctx a,
      fst (pushActivity u n ctx a st) <> 0 ->
      pendingFinishTimers (snd (pushActivity u n ctx a st)) = []) /\
  (forall u id d,
      fst (_isEnabled u st) = true -> id <> 0 ->
      pendingFinishTimers (popActivity u id d st)
      = if Nat.eqb (size (_activities (popActivity u id d st))) 0
           && hasActive (popActivity u id d st)
        then [mkTimer (nextHandle st) (now st + Z.max 0 (finishDelay st))
                      CbFinishIdleTransaction]
        else []) /\
  (forall o t,
      In t (pendingFinishTimers (step o st)) ->
      ~ In t (pendingFinishTimers st) ->
      runsPopActivity o st = true /\
      _activities (step o st) = ∅ /\
      _activeTransaction (step o st) <> None).
Proof.
  intros Hr. apply reachable_Inv in Hr. destruct Hr.
  assert (Hnil := finishTimers_keepPending_nil _ _ inv_debounce0).
  split; [assumption|]. split; [|split].
  - intros u n ctx a. rewrite pushActivity_fields.
    destruct (_ && _); simpl; [intros _|congruence].
    unfold pendingFinishTimers. simpl.
    rewrite List.filter_app, Hnil. now destruct a.
  - intros u id d He Hid. rewrite popActivity_fields, He.
    apply Nat.eqb_neq in Hid. rewrite Hid. simpl.
    unfold pendingFinishTimers, hasActive. simpl.
    rewrite List.filter_app, Hnil. fold (hasActive st).
    fold (reschedules id st). now destruct (reschedules id st).
  - intros o t. apply only_popActivity_sets_finish_timer.
Qed.

Lemma at_most_one_finish_timer_witness :
  length (pendingFinishTimers finishPending) <= 1 /\
  pendingFinishTimers (snd (pushActivity 0 "xhr" (Some xhr) None finishPending))
  = [].
Proof.
  assert (Hr : reachable finishPending)
    by (apply reachable_run, reachable_afterPageload).
  destruct (at_most_one_finish_timer finishPending Hr) as (H1 & H2 & _).
  split; [exact H1|]. apply H2. vm_compute. intros H. discriminate H.
Defined.

(** ** A discarded transaction is never finished *)

Lemma applySpanData_cons s kv d st :
  applySpanData s (kv :: d) st
  = applySpanData s d (set_calls (spanDataEntryCalls s kv (calls st)) st).
Proof.
  unfold applySpanData at 1. simpl. fold (applySpanData s d).
  f_equal. unfold spanDataEntryCalls, record.
  destruct (String.eqb (fst kv) "status_code"),
    (String.eqb (fst kv) "status"); destruct st; reflexivity.
Qed.

Lemma spanDataCalls_cons s kv d cs :
  spanDataCalls s (kv :: d) cs
  = spanDataCalls s d (spanDataEntryCalls s kv cs).
Proof.
  unfold spanDataCalls at 1.
  rewrite applySpanData_cons, applySpanData_calls. reflexivity.
Qed.
















(** ** The bootstrap activity *)

Lemma runNextTimer_single u st t :
  timers st = [t] -> (now st <= due t)%Z ->
  runNextTimer u st
  = runCallback u (callback t) (set_timers [] (set_now (due t) st)).
Proof.
  intros Ht Hd. unfold runNextTimer, fireTimer, elapse, clearTimeout.
  rewrite Ht. simpl. rewrite Ht. simpl. rewrite Nat.eqb_refl. simpl.
  replace (now st + Z.max 0 (due t - now st))%Z with (due t) by lia.
  rewrite Z.leb_refl. reflexivity.
Qed.

(** C8 as found in the code.  With an idle timeout of 0 configured, the
    bootstrap activity of the pageload transaction started at time 0 is
    popped by a timer due at 100 ms, not at 0. *)
Lemma bootstrap_pop_not_after_idleTimeout :
  option_map idleTimeout (options afterPageloadZeroTimeout) = Some 0%Z /\
  now afterPageloadZeroTimeout = 0%Z /\
  timers afterPageloadZeroTimeout = [mkTimer 1 100 (CbPopActivity 1 None)].
Proof. vm_compute. repeat split. Qed.

(** C8, amended.  Every [startIdleTransaction] that starts a transaction
    registers a span-less bootstrap activity under the next id and sets a
    timer that pops it after the configured idle timeout, or after 100 ms
    when the idle timeout is 0.  When the call is made in a reachable state
    with an empty registry and no timer pending, and nothing else happens,
    that timer empties the registry and sets the finish timer, which calls
    [finish(true)] on the transaction one more idle timeout later. *)
Theorem startIdleTransaction_bootstrap
    (u : Q) (n : string) (ctx : option SpanContext) (st st' : State) (s : Span) :
  startIdleTransaction u n ctx st = (Some s, st') ->
  _activities st' !! _currentIndex st
  = Some (mkActivity "idleTransactionStarted" None) /\
  In (mkTimer (nextHandle st) (now st + Z.max 0 (bootstrapDelay st))
              (CbPopActivity (_currentIndex st) None))
     (timers st') /\
  (forall o,
      options st = Some o ->
      bootstrapDelay st
      = if (idleTimeout o =? 0)%Z then 100%Z else idleTimeout o) /\
  (reachable st -> timers st = [] -> _activities st = ∅ ->
   forall u1 u2,
     now (runNextTimer u1 st') = (now st + Z.max 0 (bootstrapDelay st))%Z /\
     _activities (runNextTimer u1 st') = ∅ /\
     now (runNextTimer u2 (runNextTimer u1 st'))
     = (now st + Z.max 0 (bootstrapDelay st) + Z.max 0 (finishDelay st))%Z /\
     calls (runNextTimer u2 (runNextTimer u1 st'))
     = SpanFinish s true :: calls st' /\
     timers (runNextTimer u2 (runNextTimer u1 st')) = []).
Proof.
  intros E.
  pose proof (isEnabled_true_caches u st) as Hc.
  rewrite startIdleTransaction_fields in E.
  destruct (fst (_isEnabled u st)); [|discriminate].
  specialize (Hc eq_refl).
  destruct (_getCurrentHub st) as [[]|] eqn:Hg; try discriminate.
  injection E as <- <-. simpl.
  split; [apply lookup_insert_eq|].
  split; [apply in_or_app; right; left; reflexivity|].
  split.
  { intros o Ho. unfold bootstrapDelay, truthyZ. rewrite Ho.
    now destruct (idleTimeout o =? 0)%Z. }
  intros Hr Ht Ha u1 u2.
  apply reachable_Inv in Hr. destruct Hr as [Hidx _ _ _ _ _ _ _].
  rewrite Ht, Ha, Hc. simpl.
  erewrite (runNextTimer_single u1); [|simpl; reflexivity|simpl; lia].
  simpl.
  rewrite popActivity_fields.
  rewrite (isEnabled_cached _ _ true) by reflexivity.
  simpl.
  destruct (Nat.eqb (_currentIndex st) 0) eqn:E0;
    [apply Nat.eqb_eq in E0; lia|].
  simpl. unfold reschedules, hasActive, gate, popCalls, finishDelay. simpl.
  rewrite delete_insert_eq, delete_empty, map_size_empty, lookup_insert_eq.
  simpl.
  erewrite (runNextTimer_single u2); [|simpl; reflexivity|simpl; lia].
  simpl. auto.
Qed.

Lemma startIdleTransaction_bootstrap_witness :
  calls (runNextTimer 0 (runNextTimer 0
           (snd (startIdleTransaction 0 "/" None afterSetup))))
  = SpanFinish 0 true
      :: calls (snd (startIdleTransaction 0 "/" None afterSetup)) /\
  now (runNextTimer 0 (runNextTimer 0
         (snd (startIdleTransaction 0 "/" None afterSetup)))) = 1000%Z.
Proof.
  assert (Hr : reachable afterSetup) by (apply reachable_run; constructor).
  assert (E : startIdleTransaction 0 "/" None afterSetup
              = (Some 0, snd (startIdleTransaction 0 "/" None afterSetup)))
    by (vm_compute; reflexivity).
  destruct (startIdleTransaction_bootstrap _ _ _ _ _ _ E) as (_ & _ & _ & H).
  assert (Ht : timers afterSetup = []) by (vm_compute; reflexivity).
  assert (Ha : _activities afterSetup = ∅) by (vm_compute; reflexivity).
  destruct (H Hr Ht Ha 0%Q 0%Q) as (_ & _ & H3 & H4 & _).
  split; [exact H4|]. rewrite H3. vm_compute. reflexivity.
Defined.

(** ** Absent prerequisites *)

Lemma startIdleTransaction_no_hub u n ctx st :
  _getCurrentHub st <> Some ReturnsHub ->
  startIdleTransaction u n ctx st
  = (None, if fst (_isEnabled u st)
           then finishIdleTransaction (gate u st)
           else gate u st).
Proof.
  intros Hg. destruct (_getCurrentHub st) as [[]|] eqn:E; try congruence;
    rewrite startIdleTransaction_fields, E;
    now destruct (fst (_isEnabled u st)).
Qed.

(** C10 as found in the code.  A transaction is active and the hub getter
    yields no hub: [startIdleTransaction] returns nothing, but it has
    called [finish(true)] on the active transaction before it looked for
    the hub.  And after a discard that left the finish timer pending,
    [popActivity], called with no transaction active, cancels that timer. *)
Lemma startIdleTransaction_without_hub_finishes :
  (_activeTransaction hubLost = Some 0 /\
   _getCurrentHub hubLost = Some ReturnsUndefined /\
   fst (startIdleTransaction 0 "/next" (Some navigation) hubLost) = None /\
   calls (snd (startIdleTransaction 0 "/next" (Some navigation) hubLost))
   = SpanFinish 0 true :: calls hubLost) /\
  (_activeTransaction discarded = None /\
   timers discarded
   = [mkTimer 2 700 (CbPopActivity 2 (Some autoPopData));
      mkTimer 3 1000 CbFinishIdleTransaction] /\
   timers (popActivity 0 2 None discarded)
   = [mkTimer 2 700 (CbPopActivity 2 (Some autoPopData))]).
Proof. vm_compute. repeat split. Qed.

(** C10, amended.  Consulting the gate touches nothing but the cached
    decision and the count of random draws.  With the gate disabled,
    [startIdleTransaction], [pushActivity] and [popActivity] do nothing
    else.  With no transaction active, [pushActivity] returns 0 and does
    nothing else, [finishIdleTransaction] and [setTransactionStatus] do
    nothing, and [popActivity], in a reachable state, touches neither the
    reference nor the registry nor any span, though past its gate it
    cancels the pending finish timer.  With the hub missing,
    [updateTransactionName] does nothing, and [startIdleTransaction]
    returns nothing and leaves the active transaction reference, the
    registry, the id counter and the timers as they were, but with tracing
    enabled it has first called [finish(true)] on the active transaction,
    if there is one. *)
Theorem absent_prerequisite (u : Q) (st : State) :
  gate u st
  = set_enabled (_enabled (gate u st))
                (set_randomDraws (randomDraws (gate u st)) st) /\
  (fst (_isEnabled u st) = false ->
   (forall n ctx, startIdleTransaction u n ctx st = (None, gate u st)) /\
   (forall n ctx a, pushActivity u n ctx a st = (0, gate u st)) /\
   (forall id d, popActivity u id d st = gate u st)) /\
  (_activeTransaction st = None ->
   (forall n ctx a, pushActivity u n ctx a st = (0, gate u st)) /\
   finishIdleTransaction st = st /\
   (forall status, setTransactionStatus status st = st) /\
   (reachable st ->
    forall id d,
      _activeTransaction (popActivity u id d st) = None /\
      _activities (popActivity u id d st) = _activities st /\
      calls (popActivity u id d st) = calls st /\
      timers (popActivity u id d st)
      = if fst (_isEnabled u st) && negb (Nat.eqb id 0)
        then keepPending (_debounce st) (timers st)
        else timers st)) /\
  (_getCurrentHub st <> Some ReturnsHub ->
   (forall n, updateTransactionName n st = st) /\
   (forall n ctx,
       fst (startIdleTransaction u n ctx st) = None /\
       _activeTransaction (snd (startIdleTransaction u n ctx st))
       = _activeTransaction st /\
       _activities (snd (startIdleTransaction u n ctx st)) = _activities st /\
       _currentIndex (snd (startIdleTransaction u n ctx st))
       = _currentIndex st /\
       _debounce (snd (startIdleTransaction u n ctx st)) = _debounce st /\
       timers (snd (startIdleTransaction u n ctx st)) = timers st /\
       calls (snd (startIdleTransaction u n ctx st))
       = match fst (_isEnabled u st), _activeTransaction st with
         | true, Some a => SpanFinish a true :: calls st
         | _, _ => calls st
         end)).
Proof.
  split; [apply gate_fields|]. split; [|split].
  - intros He. repeat split; intros.
    + now rewrite startIdleTransaction_fields, He.
    + now rewrite pushActivity_fields, He.
    + now rewrite popActivity_fields, He.
  - intros Ha. split; [|split; [|split]]; intros.
    + rewrite pushActivity_fields. unfold hasActive. rewrite Ha.
      now rewrite andb_false_r.
    + rewrite finishIdleTransaction_fields, Ha. now destruct st.
    + rewrite setTransactionStatus_fields, Ha. now destruct st.
    + apply reachable_Inv in H. destruct H as [_ _ _ _ _ _ _ Hreg].
      assert (Hl : _activities st !! id = None)
        by (rewrite (Hreg Ha); apply lookup_empty).
      destruct (unregistered_pop_fields u id d st Hl) as (H1 & H2 & _ & H4).
      rewrite H1, H2, H4, Ha. repeat split.
      rewrite popActivity_fields.
      destruct (_ && _); simpl; [|now rewrite gate_fields].
      unfold reschedules, hasActive. rewrite Ha, andb_false_r.
      apply app_nil_r.
  - intros Hg. split.
    + intros n. rewrite updateTransactionName_fields.
      destruct (_getCurrentHub st) as [[]|]; try congruence;
        now destruct st.
    + intros n ctx. rewrite (startIdleTransaction_no_hub _ _ _ _ Hg).
      destruct (fst (_isEnabled u st)); simpl.
      * rewrite finishIdleTransaction_fields, gate_fields. simpl.
        now destruct (_activeTransaction st).
      * rewrite gate_fields. simpl. auto 10.
Qed.

Lemma absent_prerequisite_witness :
  pushActivity 0 "xhr" (Some xhr) None discarded = (0, gate 0 discarded) /\
  calls (snd (startIdleTransaction 0 "/next" None hubLost))
  = SpanFinish 0 true :: calls hubLost.
Proof.
  destruct (absent_prerequisite 0 discarded) as (_ & _ & H3 & _).
  destruct (absent_prerequisite 0 hubLost) as (_ & _ & _ & H4).
  split.
  - apply H3. vm_compute. reflexivity.
  - destruct H4 as (_ & H). { vm_compute. intros E. discriminate E. }
    destruct (H "/next" None) as (_ & _ & _ & _ & _ & _ & Hc).
    rewrite Hc. vm_compute. reflexivity.
Defined.

(** ** Scenarios of the specification on the model *)

(** Scenario A: with an idle timeout of 500 ms, a transaction whose only
    activity is popped at 100 ms is finished once, at 1000 ms, and no timer
    is left that could finish it again. *)
Example scenario_idle_finish :
  finishCount 0
    (runNextTimer 0 (runNextTimer 0
       (run [StartIdleTransaction 0 "/" None; PushActivity 0 "a" None None;
             Elapse 100; PopActivity 0 2 None] afterSetup))) = 1 /\
  now
    (runNextTimer 0 (runNextTimer 0
       (run [StartIdleTransaction 0 "/" None; PushActivity 0 "a" None None;
             Elapse 100; PopActivity 0 2 None] afterSetup))) = 1000%Z /\
  timers
    (runNextTimer 0 (runNextTimer 0
       (run [StartIdleTransaction 0 "/" None; PushActivity 0 "a" None None;
             Elapse 100; PopActivity 0 2 None] afterSetup))) = [].
Proof. vm_compute. repeat split. Qed.

(** Scenario B: starting a second transaction finishes the first one once
    and then binds the second. *)
Example scenario_replace :
  finishCount 0
    (run [StartIdleTransaction 0 "t1" None; StartIdleTransaction 0 "t2" None]
         afterSetup) = 1 /\
  _activeTransaction
    (run [StartIdleTransaction 0 "t1" None; StartIdleTransaction 0 "t2" None]
         afterSetup) = Some 1.
Proof. vm_compute. repeat split. Qed.

(** Scenario C: an activity pushed with an auto-pop after 200 ms and never
    popped by hand is removed at 200 ms, its span marked as having exceeded
    the deadline and finished. *)
Example scenario_auto_pop :
  _activities
    (runNextTimer 0
       (run [PushActivity 0 "slow" (Some xhr) (Some 200%Z)] afterPageload))
    !! 2 = None /\
  now
    (runNextTimer 0
       (run [PushActivity 0 "slow" (Some xhr) (Some 200%Z)] afterPageload))
  = 200%Z /\
  firstn 2
    (calls
       (runNextTimer 0
          (run [PushActivity 0 "slow" (Some xhr) (Some 200%Z)] afterPageload)))
  = [SpanFinish 1 false; SpanSetStatus 1 (VStr DeadlineExceeded)].
Proof. vm_compute. repeat split. Qed.

(** ** More that every reachable state satisfies *)

Lemma Consistent_ext st st' :
  _enabled st' = _enabled st ->
  _activeTransaction st' = _activeTransaction st ->
  _activities st' = _activities st ->
  _debounce st' = _debounce st ->
  timers st' = timers st ->
  nextHandle st' = nextHandle st ->
  Consistent st -> Consistent st'.
Proof.
  intros E1 E2 E3 E4 E5 E6 [].
  split; rewrite ?E1, ?E2, ?E3, ?E4, ?E5, ?E6; assumption.
Qed.

Lemma Consistent_gate u st : Consistent st -> Consistent (gate u st).
Proof.
  intros H. unfold gate.
  destruct (isEnabled_cases u st)
    as [(b & Hb & ->)|[(Hb & _ & ->)|(r & Hb & _ & ->)]]; simpl;
    try assumption.
  destruct H. split; simpl; try assumption.
  intros a Ha. specialize (con_enabled0 a Ha). congruence.
Qed.

Lemma Consistent_clearTimeout h st :
  Consistent st -> Consistent (clearTimeout h st).
Proof.
  intros []. split; simpl; try assumption.
  - intros t Ht. fold (keepPending h (timers st)) in Ht.
    apply keepPending_In in Ht. apply con_handles0, Ht.
  - intros t Ht. fold (keepPending h (timers st)) in Ht.
    apply keepPending_In in Ht. apply con_pop_timers0, Ht.
Qed.

Lemma Consistent_pushActivity u n ctx a st :
  Inv st -> Consistent st -> Consistent (snd (pushActivity u n ctx a st)).
Proof.
  intros [Hidx _ _ _ _ _ _ _] H. rewrite pushActivity_fields.
  destruct (fst (_isEnabled u st) && hasActive st) eqn:E; simpl;
    [|now apply Consistent_gate].
  apply andb_true_iff in E as [He _].
  pose proof (isEnabled_true_caches u st He) as Hc.
  destruct H. split; simpl.
  - intros _ _. exact Hc.
  - destruct (stored ctx st); try assumption;
      rewrite lookup_insert_ne by lia; assumption.
  - intros t Ht. apply in_app_or in Ht as [Ht|Ht].
    + apply keepPending_In in Ht as [Ht _].
      specialize (con_handles0 t Ht). destruct a; lia.
    + destruct a; simpl in Ht; [|tauto].
      destruct Ht as [<-|[]]. simpl. lia.
  - destruct a; lia.
  - intros t Ht Hf. apply in_app_or in Ht as [Ht|Ht].
    + apply keepPending_In in Ht as [Ht _]. auto.
    + destruct a; simpl in Ht; [|tauto].
      destruct Ht as [<-|[]]. simpl. lia.
Qed.

Lemma Consistent_popActivity u id d st :
  Consistent st -> Consistent (popActivity u id d st).
Proof.
  intros H. rewrite popActivity_fields.
  destruct (fst (_isEnabled u st) && negb (Nat.eqb id 0)) eqn:E; simpl;
    [|now apply Consistent_gate].
  apply andb_true_iff in E as [He _].
  pose proof (isEnabled_true_caches u st He) as Hc.
  destruct H. split; simpl.
  - intros _ _. exact Hc.
  - apply lookup_delete_None. auto.
  - intros t Ht. apply in_app_or in Ht as [Ht|Ht].
    + apply keepPending_In in Ht as [Ht _].
      specialize (con_handles0 t Ht). destruct (reschedules id st); lia.
    + destruct (reschedules id st); simpl in Ht; [|tauto].
      destruct Ht as [<-|[]]. simpl. lia.
  - destruct (reschedules id st); lia.
  - intros t Ht Hf. apply in_app_or in Ht as [Ht|Ht].
    + apply keepPending_In in Ht as [Ht _].
      specialize (con_handles0 t Ht).
      destruct (reschedules id st); [lia|auto].
    + destruct (reschedules id st); simpl in Ht; [|tauto].
      destruct Ht as [<-|[]]. discriminate.
Qed.

Lemma Consistent_finishIdleTransaction st :
  Consistent st -> Consistent (finishIdleTransaction st).
Proof.
  intros H. rewrite finishIdleTransaction_fields.
  eapply Consistent_ext; [..|exact H]; reflexivity.
Qed.

Lemma Consistent_startIdleTransaction u n ctx st :
  Inv st -> Consistent st ->
  Consistent (snd (startIdleTransaction u n ctx st)).
Proof.
  intros [Hidx _ _ _ _ _ _ _] H. rewrite startIdleTransaction_fields.
  destruct (fst (_isEnabled u st)) eqn:He; simpl;
    [|now apply Consistent_gate].
  destruct (_getCurrentHub st) as [[]|]; simpl;
    try now apply Consistent_finishIdleTransaction, Consistent_gate.
  pose proof (isEnabled_true_caches u st He) as Hc.
  destruct H. split; simpl.
  - intros _ _. exact Hc.
  - rewrite lookup_insert_ne by lia. assumption.
  - intros t Ht. apply in_app_or in Ht as [Ht|Ht].
    + apply keepPending_In in Ht as [Ht _].
      specialize (con_handles0 t Ht). lia.
    + destruct Ht as [<-|[]]. simpl. lia.
  - lia.
  - intros t Ht Hf. apply in_app_or in Ht as [Ht|Ht].
    + apply keepPending_In in Ht as [Ht _]. auto.
    + destruct Ht as [<-|[]]. simpl. lia.
Qed.

Lemma Consistent_visibilityListener hidden st :
  Consistent st -> Consistent (visibilityListener hidden st).
Proof.
  intros H. rewrite visibilityListener_fields.
  destruct (hidden && hasActive st); [|assumption].
  destruct H. split; simpl; try assumption; try discriminate.
  apply lookup_empty.
Qed.

Lemma reachable_Consistent st : reachable st -> Consistent st.
Proof.
  intros Hr.
  enough (H : Inv st /\ Consistent st) by apply H.
  refine (kept_reachable (fun st => Inv st /\ Consistent st)
            _ _ _ _ _ _ _ _ _ _ _ _ _ _ _ st _ Hr).
  - intros v x [H1 H2]. split;
      [eapply Inv_ext|eapply Consistent_ext]; try eassumption; reflexivity.
  - intros v x [H1 H2]. split;
      [eapply Inv_ext|eapply Consistent_ext]; try eassumption; reflexivity.
  - intros v x [H1 H2]. split;
      [eapply Inv_ext|eapply Consistent_ext]; try eassumption; reflexivity.
  - intros v x [H1 H2]. split;
      [eapply Inv_ext|eapply Consistent_ext]; try eassumption; reflexivity.
  - intros v x [H1 H2]. split;
      [eapply Inv_ext|eapply Consistent_ext]; try eassumption; reflexivity.
  - intros v x [H1 H2]. split;
      [eapply Inv_ext|eapply Consistent_ext]; try eassumption; reflexivity.
  - intros u x [H1 H2].
    split; [now apply Inv_gate|now apply Consistent_gate].
  - intros h x [H1 H2].
    split; [now apply Inv_clearTimeout|now apply Consistent_clearTimeout].
  - intros x [H1 H2]. split;
      [now apply Inv_finishIdleTransaction
      |now apply Consistent_finishIdleTransaction].
  - intros status x [H1 H2]. split;
      [now apply Inv_setTransactionStatus|].
    rewrite setTransactionStatus_fields.
    eapply Consistent_ext; [..|exact H2]; reflexivity.
  - intros n x [H1 H2]. split;
      [now apply Inv_updateTransactionName|].
    rewrite updateTransactionName_fields.
    eapply Consistent_ext; [..|exact H2]; reflexivity.
  - intros u n ctx a x [H1 H2].
    split; [now apply Inv_pushActivity|now apply Consistent_pushActivity].
  - intros u id d x [H1 H2].
    split; [now apply Inv_popActivity|now apply Consistent_popActivity].
  - intros u n ctx x [H1 H2]. split;
      [now apply Inv_startIdleTransaction
      |now apply Consistent_startIdleTransaction].
  - intros hidden x [H1 H2]. split;
      [now apply Inv_visibilityListener
      |now apply Consistent_visibilityListener].
  - split; [apply Inv_initial|].
    split; simpl; try discriminate; try lia; try tauto.
Qed.

(** ** The registry and its ids *)

Lemma reachable_discarded : reachable discarded.
Proof. apply reachable_run. constructor. Qed.

Lemma reachable_requestInFlight : reachable requestInFlight.
Proof. apply reachable_run, reachable_afterPageload. Qed.

(** X1.  In every reachable state the registry is empty whenever no
    transaction is active: activities are only registered under an active
    transaction, and the only place that drops the transaction, the
    [visibilitychange] listener, empties the registry with it. *)
Theorem registry_empty_without_transaction (st : State) :
  reachable st -> _activeTransaction st = None -> _activities st = ∅.
Proof. intros Hr. apply reachable_Inv in Hr. now destruct Hr. Qed.

Lemma registry_empty_without_transaction_witness : _activities discarded = ∅.
Proof.
  apply registry_empty_without_transaction;
    [exact reachable_discarded|reflexivity].
Defined.

Lemma currentIndex_monotone_run c ops st :
  c <= _currentIndex st -> c <= _currentIndex (run ops st).
Proof.
  apply (kept_run (fun st => c <= _currentIndex st)); clear; intros;
    try assumption.
  - now rewrite gate_fields.
  - now rewrite finishIdleTransaction_fields.
  - now rewrite setTransactionStatus_fields.
  - now rewrite updateTransactionName_fields.
  - rewrite pushActivity_fields.
    destruct (_ && _); simpl; [lia|now rewrite gate_fields].
  - rewrite popActivity_fields.
    destruct (_ && _); simpl; [lia|now rewrite gate_fields].
  - rewrite startIdleTransaction_fields.
    destruct (fst (_isEnabled u st)); simpl; [|now rewrite gate_fields].
    destruct (_getCurrentHub st) as [[]|]; simpl; try lia;
      now rewrite finishIdleTransaction_fields, gate_fields.
  - rewrite visibilityListener_fields. now destruct (_ && _).
Qed.

(** X2.  Activity ids are never reused: in a reachable state the id that
    [pushActivity] hands out is not registered and lies above every
    registered id, and no operation ever lowers the id counter. *)
Theorem pushActivity_id_is_new
    (u : Q) (n : string) (ctx : option SpanContext) (autoPopAfter : option Z)
    (st : State) :
  reachable st ->
  (fst (pushActivity u n ctx autoPopAfter st) <> 0 ->
   _activities st !! fst (pushActivity u n ctx autoPopAfter st) = None /\
   forall id a,
     _activities st !! id = Some a ->
     id < fst (pushActivity u n ctx autoPopAfter st)) /\
  (forall ops, _currentIndex st <= _currentIndex (run ops st)).
Proof.
  intros Hr. apply reachable_Inv in Hr. destruct Hr. split.
  - rewrite pushActivity_fields.
    destruct (_ && _); simpl; [intros _|congruence]. split.
    + destruct (_activities st !! _currentIndex st) as [a|] eqn:E;
        [|reflexivity].
      apply inv_ids0 in E. lia.
    + exact inv_ids0.
  - intros ops. now apply currentIndex_monotone_run.
Qed.

Lemma pushActivity_id_is_new_witness :
  _activities requestInFlight
    !! fst (pushActivity 0 "fetch" (Some xhr) None requestInFlight) = None /\
  _currentIndex requestInFlight
  <= _currentIndex (run [PopActivity 0 2 None] requestInFlight).
Proof.
  destruct (pushActivity_id_is_new 0 "fetch" (Some xhr) None requestInFlight
              reachable_requestInFlight) as [H1 H2].
  split; [|apply H2].
  apply H1. vm_compute. intros E. discriminate E.
Defined.

(** X3.  In a reachable state, popping the id that [pushActivity] has just
    returned gives back the registry and the active transaction as they
    were before the push, whatever the push did: refused with 0, stored a
    span, stored a marker or stored nothing. *)
Theorem push_then_pop_restores_registry
    (u u' : Q) (n : string) (ctx : option SpanContext)
    (autoPopAfter : option Z) (d : option (list (string * JsVal)))
    (st : State) :
  reachable st ->
  _activities
    (popActivity u' (fst (pushActivity u n ctx autoPopAfter st)) d
       (snd (pushActivity u n ctx autoPopAfter st)))
  = _activities st /\
  _activeTransaction
    (popActivity u' (fst (pushActivity u n ctx autoPopAfter st)) d
       (snd (pushActivity u n ctx autoPopAfter st)))
  = _activeTransaction st.
Proof.
  intros Hr. apply reachable_Inv in Hr. destruct Hr.
  rewrite pushActivity_fields.
  destruct (fst (_isEnabled u st) && hasActive st) eqn:E; simpl.
  - apply andb_true_iff in E as [He _].
    pose proof (isEnabled_true_caches u st He) as Hc.
    rewrite popActivity_fields. simpl.
    rewrite (isEnabled_cached _ _ true) by exact Hc. simpl.
    destruct (Nat.eqb (_currentIndex st) 0) eqn:E0;
      [apply Nat.eqb_eq in E0; lia|]. simpl.
    split; [|reflexivity].
    assert (Hn : _activities st !! _currentIndex st = None).
    { destruct (_activities st !! _currentIndex st) as [a|] eqn:El;
        [|reflexivity].
      apply inv_ids0 in El. lia. }
    destruct (stored ctx st);
      rewrite ?delete_insert_eq; now apply delete_id.
  - rewrite popActivity_fields. simpl. rewrite andb_false_r.
    rewrite (gate_fields u' (gate u st)). simpl.
    rewrite (gate_fields u st). simpl. auto.
Qed.

Lemma push_then_pop_restores_registry_witness :
  _activities
    (popActivity 0 (fst (pushActivity 0 "fetch" (Some xhr) None requestInFlight))
       None (snd (pushActivity 0 "fetch" (Some xhr) None requestInFlight)))
  = _activities requestInFlight.
Proof.
  apply (push_then_pop_restores_registry 0 0 "fetch" (Some xhr) None None
           requestInFlight reachable_requestInFlight).
Defined.

(** ** Popping a registered activity *)

Lemma spanDataCalls_chronological s d cs :
  spanDataCalls s d cs = rev (flat_map (spanDataEntry s) d) ++ cs.
Proof.
  revert cs. induction d as [|kv d IH]; intros cs; [reflexivity|].
  rewrite spanDataCalls_cons, IH.
  change (flat_map (spanDataEntry s) (kv :: d))
    with (spanDataEntry s kv ++ flat_map (spanDataEntry s) d).
  rewrite rev_app_distr, <- app_assoc. f_equal.
  unfold spanDataEntryCalls, spanDataEntry.
  destruct (String.eqb (fst kv) "status_code"),
    (String.eqb (fst kv) "status"); reflexivity.
Qed.

(** X4.  In a reachable state with tracing enabled, [popActivity] on a
    registered id removes exactly that entry: the id is gone, every other
    entry is as before, and the registry is one smaller.  If the activity
    holds a span, each entry of the span data is applied to that span in
    key order ([setData], then [setHttpStatus] for [status_code] and
    [setStatus] for [status]) and the span is then finished; for a
    span-less marker no collaborator is called. *)
Theorem popActivity_registered
    (u : Q) (id : nat) (d : option (list (string * JsVal))) (st : State)
    (act : Activity) :
  reachable st ->
  fst (_isEnabled u st) = true ->
  _activities st !! id = Some act ->
  _activities (popActivity u id d st) !! id = None /\
  (forall j, j <> id ->
             _activities (popActivity u id d st) !! j = _activities st !! j) /\
  S (size (_activities (popActivity u id d st))) = size (_activities st) /\
  calls (popActivity u id d st)
  = match span act with
    | Some s =>
      SpanFinish s false
        :: rev (flat_map (spanDataEntry s) (default [] d)) ++ calls st
    | None => calls st
    end.
Proof.
  intros Hr He Hl. apply reachable_Consistent in Hr. destruct Hr.
  assert (Hid : Nat.eqb id 0 = false).
  { apply Nat.eqb_neq. intros ->. congruence. }
  rewrite popActivity_fields, He, Hid. simpl.
  split; [apply lookup_delete_eq|].
  split; [intros j Hj; now apply lookup_delete_ne|].
  split.
  - rewrite map_size_delete, Hl. simpl.
    assert (size (_activities st) <> 0); [|lia].
    intros E. apply map_size_empty_inv in E. rewrite E in Hl.
    rewrite lookup_empty in Hl. discriminate.
  - unfold popCalls. rewrite Hl. destruct act as [nm [s|]]; [|reflexivity].
    simpl. destruct d; simpl; [|reflexivity].
    now rewrite spanDataCalls_chronological.
Qed.

Lemma popActivity_registered_witness :
  _activities
    (popActivity 0 2 (Some [("status_code", VNum 200)]) requestInFlight) !! 2
  = None /\
  calls (popActivity 0 2 (Some [("status_code", VNum 200)]) requestInFlight)
  = SpanFinish 1 false :: SpanSetHttpStatus 1 (VNum 200)
      :: SpanSetData 1 "status_code" (VNum 200) :: calls requestInFlight.
Proof.
  destruct (popActivity_registered 0 2 (Some [("status_code", VNum 200)])
              requestInFlight (mkActivity "xhr" (Some 1))
              reachable_requestInFlight eq_refl eq_refl)
    as (H1 & _ & _ & H4).
  split; [exact H1|exact H4].
Defined.

(** ** Tracing that was sampled out *)

Lemma Inert_ext st0 st st' :
  _enabled st' = _enabled st ->
  _activeTransaction st' = _activeTransaction st ->
  _activities st' = _activities st ->
  _currentIndex st' = _currentIndex st ->
  nextSpan st' = nextSpan st ->
  nextHandle st' = nextHandle st ->
  timers st' = timers st ->
  calls st' = calls st ->
  Inert st0 st -> Inert st0 st'.
Proof.
  intros E1 E2 E3 E4 E5 E6 E7 E8 [].
  split; rewrite ?E1, ?E2, ?E3, ?E4, ?E5, ?E6, ?E7, ?E8; assumption.
Qed.

Lemma Inert_gate st0 u st : Inert st0 st -> Inert st0 (gate u st).
Proof.
  intros H. unfold gate.
  now rewrite (isEnabled_cached u st false (inert_enabled _ _ H)).
Qed.

Lemma Inert_run st ops :
  _enabled st = Some false -> _activeTransaction st = None ->
  Inert st (run ops st).
Proof.
  intros He Ha.
  apply (kept_run (Inert st)).
  - intros; eapply Inert_ext; [..|eassumption]; reflexivity.
  - intros; eapply Inert_ext; [..|eassumption]; reflexivity.
  - intros; eapply Inert_ext; [..|eassumption]; reflexivity.
  - intros; eapply Inert_ext; [..|eassumption]; reflexivity.
  - intros; eapply Inert_ext; [..|eassumption]; reflexivity.
  - intros; eapply Inert_ext; [..|eassumption]; reflexivity.
  - intros. now apply Inert_gate.
  - intros h x []. split; simpl; try assumption.
    intros t Ht. fold (keepPending h (timers x)) in Ht.
    apply keepPending_In in Ht. apply inert_timers0, Ht.
  - intros x H. rewrite finishIdleTransaction_fields.
    rewrite (inert_active _ _ H). now destruct x.
  - intros status x H. rewrite setTransactionStatus_fields.
    rewrite (inert_active _ _ H). now destruct x.
  - intros n x H. rewrite updateTransactionName_fields.
    destruct H. split; simpl; try assumption.
    destruct inert_calls0 as (pre & E & Hp).
    destruct (_getCurrentHub x) as [[]|];
      [exists (HubConfigureScope (CbSetTransaction n) :: pre)
      |exists pre|exists pre]; rewrite E; auto.
  - intros u n ctx a x H. rewrite pushActivity_fields.
    rewrite (isEnabled_cached u x false (inert_enabled _ _ H)). simpl.
    now apply Inert_gate.
  - intros u id d x H. rewrite popActivity_fields.
    rewrite (isEnabled_cached u x false (inert_enabled _ _ H)). simpl.
    now apply Inert_gate.
  - intros u n ctx x H. rewrite startIdleTransaction_fields.
    rewrite (isEnabled_cached u x false (inert_enabled _ _ H)). simpl.
    now apply Inert_gate.
  - intros hidden x H. rewrite visibilityListener_fields.
    unfold hasActive. rewrite (inert_active _ _ H).
    now rewrite andb_false_r.
  - split; auto. now exists [].
Qed.

(** X5.  Once tracing has been sampled out, it stays inert: from a
    reachable state whose cached decision is [false], whatever is called
    and whichever timers fire, no transaction becomes active, nothing is
    registered, and no id, span or timer is created.  No span is started
    or called and nothing is set on the scope: the only calls made to a
    collaborator are the [hub.configureScope] calls of
    [updateTransactionName], which does not consult the gate. *)
Theorem sampled_out_is_inert (st : State) (ops : list Op) :
  reachable st ->
  _enabled st = Some false ->
  _enabled (run ops st) = Some false /\
  _activeTransaction (run ops st) = None /\
  _activities (run ops st) = ∅ /\
  _currentIndex (run ops st) = _currentIndex st /\
  nextSpan (run ops st) = nextSpan st /\
  nextHandle (run ops st) = nextHandle st /\
  exists pre,
    calls (run ops st) = pre ++ calls st /\
    forallb isConfigureScope pre = true.
Proof.
  intros Hr He.
  assert (Ha : _activeTransaction st = None).
  { destruct (_activeTransaction st) as [a|] eqn:E; [|reflexivity].
    apply reachable_Consistent in Hr. destruct Hr.
    specialize (con_enabled0 a E). congruence. }
  destruct (Inert_run st ops He Ha).
  repeat split; try assumption.
  rewrite inert_activities0.
  apply reachable_Inv in Hr. destruct Hr. auto.
Qed.

Lemma sampled_out_is_inert_witness :
  _activeTransaction
    (run [StartIdleTransaction 0 "/" None; PushActivity 0 "a" None None;
          HistoryChange browser 0] sampledOut) = None /\
  nextSpan
    (run [StartIdleTransaction 0 "/" None; PushActivity 0 "a" None None;
          HistoryChange browser 0] sampledOut) = nextSpan sampledOut.
Proof.
  assert (Hr : reachable sampledOut) by (apply reachable_run; constructor).
  assert (He : _enabled sampledOut = Some false) by (vm_compute; reflexivity).
  destruct (sampled_out_is_inert sampledOut
              [StartIdleTransaction 0 "/" None; PushActivity 0 "a" None None;
               HistoryChange browser 0] Hr He)
    as (_ & H2 & _ & _ & H5 & _).
  split; [exact H2|exact H5].
Defined.

(** ** Tracing runs only when it is enabled and configured *)

(** X6.  In every reachable state a transaction is active, or an activity
    registered, only if the cached sampling decision is [true]. *)
Theorem active_only_when_enabled (st : State) :
  reachable st ->
  (forall a, _activeTransaction st = Some a -> _enabled st = Some true) /\
  (forall id act, _activities st !! id = Some act -> _enabled st = Some true).
Proof.
  intros Hr.
  pose proof (reachable_Inv _ Hr) as [].
  pose proof (reachable_Consistent _ Hr) as [].
  split; [assumption|].
  intros id act Hl.
  destruct (_activeTransaction st) as [a|] eqn:Ha; [eauto|].
  rewrite (inv_registry0 eq_refl), lookup_empty in Hl. discriminate.
Qed.

Lemma active_only_when_enabled_witness : _enabled requestInFlight = Some true.
Proof.
  apply (proj2 (active_only_when_enabled requestInFlight
                  reachable_requestInFlight) 2 (mkActivity "xhr" (Some 1))).
  reflexivity.
Defined.

Lemma Configured_gate u st : Configured st -> Configured (gate u st).
Proof.
  unfold Configured, gate. intros H.
  destruct (isEnabled_cases u st)
    as [(b & Hb & ->)|[(Hb & _ & ->)|(r & Hb & Hr & ->)]]; simpl;
    try assumption.
  intros _. unfold sampleRate in Hr.
  destruct (options st); [discriminate|discriminate].
Qed.

Lemma Configured_same st st' :
  _enabled st' = _enabled st -> options st' = options st ->
  Configured st -> Configured st'.
Proof. unfold Configured. now intros -> ->. Qed.

Lemma Configured_push u n ctx a st :
  Configured st -> Configured (snd (pushActivity u n ctx a st)).
Proof.
  intros H. rewrite pushActivity_fields.
  destruct (_ && _); simpl; [|now apply Configured_gate].
  eapply Configured_same; [..|apply (Configured_gate u), H];
    [reflexivity|now rewrite gate_fields].
Qed.

Lemma Configured_pop u id d st :
  Configured st -> Configured (popActivity u id d st).
Proof.
  intros H. rewrite popActivity_fields.
  destruct (_ && _); simpl; [|now apply Configured_gate].
  eapply Configured_same; [..|apply (Configured_gate u), H];
    [reflexivity|now rewrite gate_fields].
Qed.

Lemma Configured_finish st :
  Configured st -> Configured (finishIdleTransaction st).
Proof. apply Configured_same; now rewrite finishIdleTransaction_fields. Qed.

Lemma Configured_start u n ctx st :
  Configured st -> Configured (snd (startIdleTransaction u n ctx st)).
Proof.
  intros H. rewrite startIdleTransaction_fields.
  destruct (fst (_isEnabled u st)); simpl; [|now apply Configured_gate].
  destruct (_getCurrentHub st) as [[]|]; simpl;
    try now apply Configured_finish, Configured_gate.
  eapply Configured_same; [..|apply (Configured_gate u), H];
    [reflexivity|now rewrite gate_fields].
Qed.

Lemma Configured_step o st : Configured st -> Configured (step o st).
Proof.
  intros H.
  destruct o; unfold step, constructor, visibilitychange, elapse.
  - unfold Configured. simpl. discriminate.
  - apply kept_setupOnce; auto using Configured_gate, Configured_start;
      intros; (eapply Configured_same; [..|eassumption]; reflexivity).
  - now apply Configured_start.
  - apply Configured_same with st; auto;
      now rewrite updateTransactionName_fields.
  - now apply Configured_finish.
  - apply Configured_same with st; auto;
      now rewrite setTransactionStatus_fields.
  - now apply Configured_push.
  - now apply Configured_pop.
  - apply iter_preserves; [|assumption]. intros x Hx.
    rewrite visibilityListener_fields. now destruct (_ && _).
  - apply iter_preserves; [|assumption]. intros x.
    apply kept_historyCallback. intros. now apply Configured_start.
  - apply iter_preserves; [|assumption]. intros x Hx.
    rewrite eventProcessor_state.
    destruct self; auto using Configured_gate.
  - apply kept_fireTimer; auto using Configured_finish, Configured_pop.
  - now apply Configured_same with st.
Qed.

Lemma reachable_Configured st : reachable st -> Configured st.
Proof.
  intros Hr. induction Hr; [|now apply Configured_step].
  unfold Configured. simpl. congruence.
Qed.

(** X7.  In a reachable state the event processor never fails on missing
    options and never alters an event: it either drops the event or
    delivers it as it came.  It delivers every event that is not of type
    ['transaction'] and every event that lacks [timestamp] or
    [start_timestamp]. *)
Theorem eventProcessor_delivers_or_drops
    (self : bool) (u : Q) (event : Event) (st : State) :
  reachable st ->
  (fst (eventProcessor self u event st) = Delivered event \/
   fst (eventProcessor self u event st) = Dropped) /\
  (type event <> Some "transaction" \/ timestamp event = None \/
   start_timestamp event = None ->
   fst (eventProcessor self u event st) = Delivered event).
Proof.
  intros Hr. apply reachable_Configured, (Configured_gate u) in Hr.
  pose proof (isEnabled_true_caches u st) as Hc.
  assert (Ho : fst (_isEnabled u st) = true -> options (gate u st) <> None).
  { intros He. apply Hr. rewrite (Hc He). discriminate. }
  unfold eventProcessor, gate in *.
  destruct self; simpl; [|auto].
  destruct (_isEnabled u st) as [en st1]; simpl in *.
  destruct en; [|auto].
  destruct (options st1) as [o|]; [|exfalso; now apply Ho].
  split.
  - match goal with |- context [if ?c then _ else _] => destruct c end; auto.
  - intros H.
    assert (E : isTransaction event
                && isOutdatedTransaction event (maxTransactionDuration o)
                = false).
    { unfold isTransaction, isOutdatedTransaction.
      destruct H as [H|[H|H]].
      - destruct (type event) as [t|]; [|reflexivity].
        destruct (String.eqb t "transaction") eqn:E; [|reflexivity].
        apply String.eqb_eq in E. congruence.
      - rewrite H. apply andb_false_r.
      - rewrite H. destruct (timestamp event); apply andb_false_r. }
    rewrite <- andb_assoc, E, andb_false_r. reflexivity.
Qed.

Lemma eventProcessor_delivers_or_drops_witness :
  fst (eventProcessor true 0 (mkEvent (Some "error") (Some 1601%float)
                                      (Some 1000%float)) afterPageload)
  = Delivered (mkEvent (Some "error") (Some 1601%float) (Some 1000%float)).
Proof.
  apply (proj2 (eventProcessor_delivers_or_drops true 0
                  (mkEvent (Some "error") (Some 1601%float) (Some 1000%float))
                  afterPageload reachable_afterPageload)).
  left. discriminate.
Defined.

(** ** Replacing a transaction *)

(** X8.  A [startIdleTransaction] that starts a transaction in a reachable
    state first calls [finish(true)] on the transaction active so far, if
    there is one, then starts the new span as a root (no parent) carrying
    the given name, and binds it as active transaction and on the scope.
    The new span is a fresh one: it is neither the replaced transaction nor
    the span of any registered activity. *)
Theorem startIdleTransaction_replaces
    (u : Q) (n : string) (ctx : option SpanContext) (st st' : State) (s : Span) :
  reachable st ->
  startIdleTransaction u n ctx st = (Some s, st') ->
  calls st'
  = ScopeSetSpan s :: HubStartSpan s (withTransaction n ctx) None
      :: match _activeTransaction st with
         | Some a => SpanFinish a true :: calls st
         | None => calls st
         end /\
  transaction (withTransaction n ctx) = Some n /\
  _activeTransaction st' = Some s /\
  scopeSpan st' = Some s /\
  _activeTransaction st <> Some s /\
  (forall id act, _activities st' !! id = Some act -> span act <> Some s).
Proof.
  intros Hr. apply reachable_Inv in Hr. destruct Hr.
  rewrite startIdleTransaction_fields.
  destruct (fst (_isEnabled u st)); [|discriminate].
  destruct (_getCurrentHub st) as [[]|]; try discriminate.
  intros E. simplify_eq/=. rewrite finishIdleTransaction_fields. simpl.
  repeat split.
  - now destruct ctx.
  - intros Ha. apply inv_active_span0 in Ha. lia.
  - intros id act Hl Hs.
    destruct (decide (id = _currentIndex st)) as [->|Hne].
    + rewrite lookup_insert_eq in Hl. simplify_eq/=.
    + rewrite lookup_insert_ne in Hl by congruence.
      specialize (inv_activity_spans0 _ _ _ Hl Hs). lia.
Qed.

Lemma startIdleTransaction_replaces_witness :
  calls (snd (startIdleTransaction 0 "/next" None afterPageload))
  = ScopeSetSpan 1
      :: HubStartSpan 1 (mkSpanContext None None None (Some "/next")) None
      :: SpanFinish 0 true :: calls afterPageload.
Proof.
  assert (E : startIdleTransaction 0 "/next" None afterPageload
              = (Some 1, snd (startIdleTransaction 0 "/next" None afterPageload)))
    by (vm_compute; reflexivity).
  apply (startIdleTransaction_replaces 0 "/next" None afterPageload _ 1
           reachable_afterPageload E).
Defined.

(** ** Pop timers are never cancelled *)

Lemma keepsTimer_same t st st' :
  _enabled st' = _enabled st ->
  _activeTransaction st' = _activeTransaction st ->
  _currentIndex st' = _currentIndex st ->
  _activities st' = _activities st ->
  _debounce st' = _debounce st ->
  timers st' = timers st ->
  nextHandle st' = nextHandle st ->
  nextSpan st' = nextSpan st ->
  scopeSpan st' = scopeSpan st ->
  keepsTimer t st -> keepsTimer t st'.
Proof.
  intros E1 E2 E3 E4 E5 E6 E7 E8 E9 (H1 & H2 & H3).
  split; [|split].
  - eapply Inv_ext; [..|exact H1]; assumption.
  - eapply Consistent_ext; [..|exact H2]; assumption.
  - now rewrite E6.
Qed.

Lemma keepsTimer_gate t u st : keepsTimer t st -> keepsTimer t (gate u st).
Proof.
  intros (H1 & H2 & H3).
  split; [now apply Inv_gate|split; [now apply Consistent_gate|]].
  now rewrite gate_fields.
Qed.

Lemma keepsTimer_finish t st :
  keepsTimer t st -> keepsTimer t (finishIdleTransaction st).
Proof.
  apply keepsTimer_same; now rewrite finishIdleTransaction_fields.
Qed.

Lemma keepsTimer_push t u n ctx a st :
  isFinishTimer t = false ->
  keepsTimer t st -> keepsTimer t (snd (pushActivity u n ctx a st)).
Proof.
  intros Hf (H1 & H2 & H3).
  split; [now apply Inv_pushActivity|].
  split; [now apply Consistent_pushActivity|].
  rewrite pushActivity_fields.
  destruct (_ && _); simpl; [|now rewrite gate_fields].
  apply in_or_app. left. apply keepPending_In.
  split; [assumption|]. now apply (con_pop_timers _ H2).
Qed.

Lemma keepsTimer_pop t u id d st :
  isFinishTimer t = false ->
  keepsTimer t st -> keepsTimer t (popActivity u id d st).
Proof.
  intros Hf (H1 & H2 & H3).
  split; [now apply Inv_popActivity|].
  split; [now apply Consistent_popActivity|].
  rewrite popActivity_fields.
  destruct (_ && _); simpl; [|now rewrite gate_fields].
  apply in_or_app. left. apply keepPending_In.
  split; [assumption|]. now apply (con_pop_timers _ H2).
Qed.

Lemma keepsTimer_start t u n ctx st :
  isFinishTimer t = false ->
  keepsTimer t st -> keepsTimer t (snd (startIdleTransaction u n ctx st)).
Proof.
  intros Hf (H1 & H2 & H3).
  split; [now apply Inv_startIdleTransaction|].
  split; [now apply Consistent_startIdleTransaction|].
  rewrite startIdleTransaction_fields.
  destruct (fst (_isEnabled u st)); simpl; [|now rewrite gate_fields].
  destruct (_getCurrentHub st) as [[]|]; simpl;
    try (rewrite finishIdleTransaction_fields, gate_fields; assumption).
  apply in_or_app. left. apply keepPending_In.
  split; [assumption|]. now apply (con_pop_timers _ H2).
Qed.

Lemma keepsTimer_listener t hidden st :
  keepsTimer t st -> keepsTimer t (visibilityListener hidden st).
Proof.
  intros (H1 & H2 & H3).
  split; [now apply Inv_visibilityListener|].
  split; [now apply Consistent_visibilityListener|].
  rewrite visibilityListener_fields. now destruct (_ && _).
Qed.

(** X9.  No operation cancels a pending pop timer, be it the auto-pop
    timer of an activity or the bootstrap timer of a transaction: in a
    reachable state such a timer is still pending after any step other
    than its own firing, also when its activity was popped by hand or its
    transaction was finished, replaced or discarded. *)
Theorem pop_timer_stays_pending (st : State) (o : Op) (t : Timer) :
  reachable st ->
  In t (timers st) ->
  isFinishTimer t = false ->
  In t (timers (step o st)) \/ exists u, o = FireTimer u (handle t).
Proof.
  intros Hr Ht Hf.
  assert (H : keepsTimer t st)
    by (split; [now apply reachable_Inv
               |split; [now apply reachable_Consistent|assumption]]).
  assert (Hk : forall x, keepsTimer t x -> In t (timers x))
    by (intros x Hx; apply Hx).
  destruct o as [| | | | | | | | | | |u h|];
    try (destruct (decide (h = handle t)) as [->|Hh]; [right; eauto|]);
    left; apply Hk; unfold step, constructor, visibilitychange, elapse.
  - now apply keepsTimer_same with st.
  - apply kept_setupOnce;
      auto using keepsTimer_gate, keepsTimer_start;
      intros; (eapply keepsTimer_same; [..|eassumption]; reflexivity).
  - now apply keepsTimer_start.
  - apply keepsTimer_same with st; auto;
      now rewrite updateTransactionName_fields.
  - now apply keepsTimer_finish.
  - apply keepsTimer_same with st; auto;
      now rewrite setTransactionStatus_fields.
  - now apply keepsTimer_push.
  - now apply keepsTimer_pop.
  - apply iter_preserves; auto using keepsTimer_listener.
  - apply iter_preserves; [|assumption]. intros x.
    apply kept_historyCallback. intros. now apply keepsTimer_start.
  - apply iter_preserves; [|assumption]. intros x Hx.
    rewrite eventProcessor_state.
    destruct self; auto using keepsTimer_gate.
  - unfold fireTimer.
    destruct (List.find _ (timers st)) as [x|]; [|assumption].
    destruct (due x <=? now st)%Z; [|assumption].
    assert (Hc : keepsTimer t (clearTimeout h st)).
    { destruct H as (H1 & H2 & H3).
      split; [now apply Inv_clearTimeout|].
      split; [now apply Consistent_clearTimeout|].
      simpl. fold (keepPending h (timers st)). apply keepPending_In. auto. }
    destruct (callback x); simpl;
      auto using keepsTimer_pop, keepsTimer_finish.
  - now apply keepsTimer_same with st.
Qed.

Lemma pop_timer_stays_pending_witness :
  In (mkTimer 2 700 (CbPopActivity 2 (Some autoPopData)))
     (timers (step (VisibilityChange true) finishPending)).
Proof.
  assert (Hr : reachable finishPending)
    by (apply reachable_run, reachable_afterPageload).
  destruct (pop_timer_stays_pending finishPending (VisibilityChange true)
              (mkTimer 2 700 (CbPopActivity 2 (Some autoPopData))) Hr)
    as [H|[u H]]; [vm_compute; auto|reflexivity|exact H|discriminate H].
Defined.

(** ** An auto-pop timer firing *)

Lemma find_last_handle (ts : list Timer) (t : Timer) :
  (forall x, In x ts -> handle x < handle t) ->
  List.find (fun x => Nat.eqb (handle x) (handle t)) (ts ++ [t]) = Some t.
Proof.
  intros H. induction ts as [|x ts IH]; simpl.
  - now rewrite Nat.eqb_refl.
  - destruct (Nat.eqb (handle x) (handle t)) eqn:E.
    + apply Nat.eqb_eq in E. specialize (H x (or_introl eq_refl)). lia.
    + apply IH. intros y Hy. apply H. now right.
Qed.

Lemma keepPending_last (ts : list Timer) (t : Timer) :
  (forall x, In x ts -> handle x < handle t) ->
  keepPending (handle t) (ts ++ [t]) = ts.
Proof.
  intros H. unfold keepPending. rewrite List.filter_app. simpl.
  rewrite Nat.eqb_refl. simpl. rewrite app_nil_r.
  induction ts as [|x ts IH]; simpl; [reflexivity|].
  destruct (Nat.eqb (handle x) (handle t)) eqn:E.
  - apply Nat.eqb_eq in E. specialize (H x (or_introl eq_refl)). lia.
  - simpl. f_equal. apply IH. intros y Hy. apply H. now right.
Qed.

(** X10.  An activity pushed with [autoPopAfter] in a reachable state is
    popped by its own timer: once at least that much time has passed, the
    timer set by the push (the only one with the handle handed out by that
    push) fires, gives the registry back as it was before the push, marks
    the span of the activity, if it has one, with the data [autoPop: true]
    and [status: deadline_exceeded], sets its status to
    [deadline_exceeded] and finishes it, and is itself no longer
    pending. *)
Theorem autoPop_timer_pops
    (u u' : Q) (n : string) (ctx : option SpanContext) (d dt : Z)
    (st : State) :
  reachable st ->
  fst (pushActivity u n ctx (Some d) st) <> 0 ->
  (d <= dt)%Z ->
  let id := fst (pushActivity u n ctx (Some d) st) in
  let st' := snd (pushActivity u n ctx (Some d) st) in
  let st'' := fireTimer u' (nextHandle st) (elapse dt st') in
  _activities st'' = _activities st /\
  calls st''
  = match _activities st' !! id with
    | Some (mkActivity _ (Some s)) =>
      SpanFinish s false
        :: SpanSetStatus s (VStr DeadlineExceeded)
        :: SpanSetData s "status" (VStr DeadlineExceeded)
        :: SpanSetData s "autoPop" (VBool true) :: calls st'
    | _ => calls st'
    end /\
  (forall t, In t (timers st'') -> handle t <> nextHandle st).
Proof.
  intros Hr Hid Hd.
  pose proof (reachable_Inv _ Hr) as HI.
  pose proof (reachable_Consistent _ Hr) as HC.
  destruct HI, HC.
  cbv zeta. revert Hid. rewrite pushActivity_fields.
  destruct (fst (_isEnabled u st) && hasActive st) eqn:E; simpl;
    [intros _|congruence].
  apply andb_true_iff in E as [He Ha].
  pose proof (isEnabled_true_caches u st He) as Hc.
  set (t := mkTimer (nextHandle st) (now st + Z.max 0 d)
              (CbPopActivity (_currentIndex st) (Some autoPopData))).
  assert (Hlt : forall x, In x (keepPending (_debounce st) (timers st)) ->
                          handle x < handle t).
  { intros x Hx. apply keepPending_In in Hx as [Hx _]. simpl. auto. }
  assert (Hn : _activities st !! _currentIndex st = None).
  { destruct (_activities st !! _currentIndex st) as [a|] eqn:Hl;
      [|reflexivity].
    apply inv_ids0 in Hl. lia. }
  unfold fireTimer, elapse. simpl.
  change (nextHandle st) with (handle t).
  rewrite (find_last_handle _ t Hlt). simpl.
  destruct (now st + Z.max 0 d <=? now st + Z.max 0 dt)%Z eqn:El;
    [|apply Z.leb_gt in El; lia].
  rewrite popActivity_fields. simpl.
  rewrite (isEnabled_cached _ _ true) by exact Hc. simpl.
  destruct (Nat.eqb (_currentIndex st) 0) eqn:E0;
    [apply Nat.eqb_eq in E0; lia|]. simpl.
  change (List.filter (fun x : Timer => negb (Nat.eqb (handle x) (nextHandle st)))
            (keepPending (_debounce st) (timers st) ++ [t]))
    with (keepPending (handle t)
            (keepPending (_debounce st) (timers st) ++ [t])).
  rewrite (keepPending_last _ t Hlt).
  split; [|split].
  - destruct (stored ctx st);
      rewrite ?delete_insert_eq; now apply delete_id.
  - unfold popCalls. simpl.
    destruct (stored ctx st); rewrite ?lookup_insert_eq, ?Hn; reflexivity.
  - intros x Hx. apply in_app_or in Hx as [Hx|Hx].
    + apply keepPending_In in Hx as [Hx _].
      apply keepPending_In in Hx as [Hx _].
      apply con_handles0 in Hx. simpl. lia.
    + destruct (reschedules _ _); [|contradiction].
      destruct Hx as [<-|[]]. simpl. lia.
Qed.

Lemma autoPop_timer_pops_witness :
  _activities
    (fireTimer 0 (nextHandle afterPageload)
       (elapse 200%Z
          (snd (pushActivity 0 "xhr" (Some xhr) (Some 200%Z) afterPageload))))
  = _activities afterPageload.
Proof.
  assert (H : fst (pushActivity 0 "xhr" (Some xhr) (Some 200%Z) afterPageload)
              <> 0)
    by (vm_compute; intros E; discriminate E).
  apply (autoPop_timer_pops 0 0 "xhr" (Some xhr) 200%Z 200%Z afterPageload
           reachable_afterPageload H).
  vm_compute. intros E. discriminate E.
Defined.

(** ** Installing the integration *)

(** X11.  [setupOnce] always stores the hub getter it is given.  When the
    sampling gate says no, that is all it does: no instrumentation handler,
    listener or event processor is registered and no transaction started.
    When the gate says yes, it registers the handlers switched on in the
    options in the order xhr, fetch (only with native fetch), history,
    exactly one event processor, the [visibilitychange] listener exactly
    when [discardBackgroundSpans] is set and a document exists, and, when
    the location has a non-empty href, goes through [startIdleTransaction]:
    the transaction active so far is finished and, if the getter yields a
    hub, a root span with op [pageload], [sampled: true] and the href as
    transaction name becomes the active transaction. *)
Theorem setupOnce_installs (g : HubGetter) (env : Browser) (u : Q) (st : State) :
  _getCurrentHub (setupOnce g env u st) = Some g /\
  (fst (_isEnabled u st) = false ->
   handlers (setupOnce g env u st) = handlers st /\
   eventProcessors (setupOnce g env u st) = eventProcessors st /\
   visibilityListeners (setupOnce g env u st) = visibilityListeners st /\
   _activeTransaction (setupOnce g env u st) = _activeTransaction st /\
   _activities (setupOnce g env u st) = _activities st /\
   timers (setupOnce g env u st) = timers st /\
   calls (setupOnce g env u st) = calls st) /\
  (forall o,
   fst (_isEnabled u st) = true ->
   options st = Some o ->
   handlers (setupOnce g env u st) = handlers st ++ requestedHandlers o env /\
   eventProcessors (setupOnce g env u st) = S (eventProcessors st) /\
   visibilityListeners (setupOnce g env u st)
   = (if discardBackgroundSpans o && document env
      then S (visibilityListeners st) else visibilityListeners st) /\
   _activeTransaction (setupOnce g env u st)
   = (match g with
      | ReturnsHub =>
        if hasHref env then Some (nextSpan st) else _activeTransaction st
      | ReturnsUndefined => _activeTransaction st
      end) /\
   calls (setupOnce g env u st)
   = (if hasHref env
      then match g with
           | ReturnsHub =>
             ScopeSetSpan (nextSpan st)
               :: HubStartSpan (nextSpan st)
                    (mkSpanContext (Some "pageload") None (Some true)
                       (location_href env)) None
               :: finishedCalls st
           | ReturnsUndefined => finishedCalls st
           end
      else calls st)).
Proof.
  unfold setupOnce. rewrite isEnabled_set_getCurrentHub.
  split; [|split].
  - destruct (fst (_isEnabled u st)) eqn:He; simpl; [|reflexivity].
    pose proof (isEnabled_true_caches u st He) as Hc.
    rewrite (gate_fields u st). simpl.
    destruct (options st) as [o|]; [|reflexivity].
    unfold addInstrumentationHandler.
    destruct (location_href env) as [href|]; simpl;
      [destruct (truthyString href); simpl|];
      rewrite ?startIdleTransaction_fields;
      destruct (traceXHR o), (traceFetch o && nativeFetch env),
        (startTransactionOnLocationChange o),
        (discardBackgroundSpans o && document env); simpl;
      try reflexivity;
      rewrite (isEnabled_cached _ _ true) by exact Hc;
      destruct g; simpl; rewrite ?finishIdleTransaction_fields;
      try rewrite (gate_cached u _ true) by exact Hc; reflexivity.
  - intros He. rewrite He. simpl. rewrite (gate_fields u st). simpl.
    repeat split; reflexivity.
  - intros o He Ho. rewrite He. simpl.
    pose proof (isEnabled_true_caches u st He) as Hc.
    rewrite (gate_fields u st), Hc. simpl. rewrite Ho.
    unfold requestedHandlers, hasHref, finishedCalls, addInstrumentationHandler.
    destruct (location_href env) as [href|]; simpl.
    + destruct (truthyString href); simpl.
      * rewrite startIdleTransaction_fields.
        rewrite (isEnabled_cached _ _ true) by
          (destruct (traceXHR o), (traceFetch o && nativeFetch env),
             (startTransactionOnLocationChange o); reflexivity).
        simpl.
        destruct g; simpl; rewrite ?finishIdleTransaction_fields;
          try rewrite (gate_cached u _ true) by
            (destruct (traceXHR o), (traceFetch o && nativeFetch env),
               (startTransactionOnLocationChange o); reflexivity);
          destruct (traceXHR o), (traceFetch o && nativeFetch env),
            (startTransactionOnLocationChange o),
            (discardBackgroundSpans o && document env); simpl;
          destruct (_activeTransaction st); simpl;
          rewrite <- ?app_assoc; simpl; rewrite ?app_nil_r;
          repeat split; reflexivity.
      * destruct (traceXHR o), (traceFetch o && nativeFetch env),
          (startTransactionOnLocationChange o),
          (discardBackgroundSpans o && document env), g; simpl;
          rewrite <- ?app_assoc; simpl; rewrite ?app_nil_r;
          repeat split; reflexivity.
    + destruct (traceXHR o), (traceFetch o && nativeFetch env),
        (startTransactionOnLocationChange o),
        (discardBackgroundSpans o && document env), g; simpl;
        rewrite <- ?app_assoc; simpl; rewrite ?app_nil_r;
          repeat split; reflexivity.
Qed.

Lemma setupOnce_installs_witness :
  handlers (setupOnce ReturnsHub browser (1 # 2) (constructor None initial))
  = [] ++ requestedHandlers defaults browser /\
  _activeTransaction
    (setupOnce ReturnsHub browser (1 # 2) (constructor None initial))
  = Some 0.
Proof.
  destruct (setupOnce_installs ReturnsHub browser (1 # 2)
              (constructor None initial)) as (_ & _ & H).
  assert (He : fst (_isEnabled (1 # 2) (constructor None initial)) = true)
    by (vm_compute; reflexivity).
  destruct (H defaults He eq_refl) as (H1 & _ & _ & H4 & _).
  split; [exact H1|exact H4].
Defined.

(** ** The xhr adapter *)

Lemma hasActive_enabled u st :
  Consistent st -> fst (_isEnabled u st) && hasActive st = hasActive st.
Proof.
  intros HC. unfold hasActive.
  destruct (_activeTransaction st) as [a|] eqn:Ha; [|apply andb_false_r].
  rewrite (isEnabled_cached u st true); [reflexivity|].
  now apply (con_enabled _ HC a).
Qed.

Lemma index_fresh st : Inv st -> _activities st !! _currentIndex st = None.
Proof.
  intros HI. destruct (_activities st !! _currentIndex st) as [a|] eqn:Hl;
    [|reflexivity].
  apply (inv_ids _ HI) in Hl. lia.
Qed.

Lemma truthyId_index st :
  Inv st -> truthyId (Some (_currentIndex st)) = true.
Proof.
  intros HI. pose proof (inv_index _ HI).
  destruct (_currentIndex st); [lia|reflexivity].
Qed.

Lemma xhrCallback_pushes shouldCreate u x sx o endTs st :
  options st = Some o ->
  traceXHR o = true ->
  __sentry_xhr__ x = Some sx ->
  __sentry_own_request__ x = false ->
  shouldCreate (xhr_url sx) = true ->
  truthyTimestamp endTs && truthyId (__sentry_xhr_activity_id__ x) = false ->
  xhrCallback shouldCreate u (Some (mkXhrHandlerData (Some x) endTs)) st
  = (Some (mkXhrHandlerData
             (Some (mkXMLHttpRequest (Some sx) false
                      (Some (fst (pushActivity u "xhr"
                                    (Some (requestContext (xhr_method sx)
                                                          (xhr_url sx)))
                                    None st)))
                      (setRequestHeader x)
                      (match
                          _activities
                            (snd (pushActivity u "xhr"
                                    (Some (requestContext (xhr_method sx)
                                                          (xhr_url sx)))
                                    None st))
                          !! fst (pushActivity u "xhr"
                                    (Some (requestContext (xhr_method sx)
                                                          (xhr_url sx)))
                                    None st)
                        with
                        | Some (mkActivity _ (Some s)) =>
                          if setRequestHeader x
                          then requestHeaders x
                               ++ [("sentry-trace", Traceparent s)]
                          else requestHeaders x
                        | _ => requestHeaders x
                        end)))
             endTs),
     snd (pushActivity u "xhr"
            (Some (requestContext (xhr_method sx) (xhr_url sx))) None st)).
Proof.
  intros Ho Ht Hsx Hown Hf He. unfold xhrCallback.
  rewrite Ho, Ht. simpl. rewrite Hsx, Hf, Hown, He. simpl.
  destruct (pushActivity u "xhr" _ None st) as [id st1]. simpl.
  destruct (_activities st1 !! id) as [[nm [s|]]|]; reflexivity.
Qed.

Lemma xhrCallback_pops shouldCreate u x sx o t id st :
  options st = Some o ->
  traceXHR o = true ->
  __sentry_xhr__ x = Some sx ->
  __sentry_own_request__ x = false ->
  shouldCreate (xhr_url sx) = true ->
  truthyQ t = true ->
  __sentry_xhr_activity_id__ x = Some (S id) ->
  xhrCallback shouldCreate u (Some (mkXhrHandlerData (Some x) (Some t))) st
  = (Some (mkXhrHandlerData (Some x) (Some t)),
     popActivity u (S id) (Some (xhrEntries sx)) st).
Proof.
  intros Ho Ht Hsx Hown Hf Htt Hid. unfold xhrCallback.
  rewrite Ho, Ht. simpl. rewrite Hsx, Hf, Hown, Hid. simpl.
  now rewrite Htt.
Qed.

(** X12.  The two events of one xhr request undo each other in the
    registry.  In a reachable state with [traceXHR] on, for a request the
    adapter traces (its url passes [shouldCreateSpanForRequest] and it is
    not one of the SDK's own), handling the start event and then the end
    event of the same request object leaves the registry and the active
    transaction as they were before the start, whatever the start did.  If
    the start stored a span, the end event hands it the entries of
    [__sentry_xhr__] as they are at the end, [status_code] included, and
    finishes it; otherwise the end event calls no span. *)
Theorem xhrCallback_round_trip
    (shouldCreate : string -> bool) (u u' t : Q) (more : list (string * JsVal))
    (x : XMLHttpRequest) (sx : SentryXhr) (o : TracingOptions) (st : State) :
  reachable st ->
  options st = Some o ->
  traceXHR o = true ->
  __sentry_xhr__ x = Some sx ->
  __sentry_own_request__ x = false ->
  shouldCreate (xhr_url sx) = true ->
  truthyQ t = true ->
  let started :=
    xhrCallback shouldCreate u (Some (mkXhrHandlerData (Some x) None)) st in
  let ended :=
    xhrCallback shouldCreate u' (xhrEnded t more (fst started)) (snd started) in
  _activities (snd ended) = _activities st /\
  _activeTransaction (snd ended) = _activeTransaction st /\
  calls (snd ended)
  = match _activities (snd started) !! recordedId (fst started) with
    | Some (mkActivity _ (Some s)) =>
      SpanFinish s false
        :: rev (flat_map (spanDataEntry s)
                  (xhrEntries (mkSentryXhr (xhr_method sx) (xhr_url sx)
                                 (xhr_more sx ++ more))))
        ++ calls (snd started)
    | _ => calls (snd started)
    end.
Proof.
  intros Hr Ho Ht Hsx Hown Hf Htt.
  pose proof (reachable_Inv _ Hr) as HI.
  pose proof (reachable_Consistent _ Hr) as HC.
  cbv zeta.
  rewrite (xhrCallback_pushes shouldCreate u x sx o None st Ho Ht Hsx Hown Hf
             eq_refl).
  rewrite pushActivity_fields, (hasActive_enabled u st HC).
  destruct (hasActive st) eqn:Ha; simpl.
  - assert (He : _enabled (gate u st) = Some true).
    { unfold hasActive in Ha.
      destruct (_activeTransaction st) as [a|] eqn:E; [|discriminate].
      rewrite (gate_cached u st true); now apply (con_enabled _ HC a). }
    pose proof (inv_index _ HI) as Hi.
    destruct (_currentIndex st) as [|k] eqn:Ek; [lia|].
    erewrite xhrCallback_pops; try reflexivity; try eassumption.
    rewrite popActivity_fields. simpl.
    rewrite (isEnabled_cached _ _ true) by exact He. simpl.
    pose proof (index_fresh st HI) as Hn. rewrite Ek in Hn.
    split; [|split; [reflexivity|]].
    + unfold stored. destruct (_getCurrentHub st) as [[]|];
        rewrite ?delete_insert_eq; now apply delete_id.
    + unfold popCalls, stored. simpl.
      destruct (_getCurrentHub st) as [[]|];
        rewrite ?lookup_insert_eq, ?Hn; simpl; try reflexivity.
      now rewrite spanDataCalls_chronological.
  - assert (Hz : _activities (gate u st) !! 0 = None)
      by (rewrite (gate_fields u st); apply (con_no_zero _ HC)).
    rewrite Hz.
    erewrite xhrCallback_pushes; try reflexivity; try eassumption;
      [|rewrite (gate_fields u st); exact Ho|apply andb_false_r].
    simpl. rewrite pushActivity_fields.
    replace (hasActive (gate u st)) with false
      by (rewrite (gate_fields u st); symmetry; exact Ha).
    rewrite andb_false_r. simpl.
    rewrite (gate_fields u' _). simpl.
    rewrite (gate_fields u st). simpl. auto.
Qed.

Lemma xhrCallback_round_trip_witness :
  _activities
    (snd (xhrCallback anyUrl 0
            (xhrEnded 1 ok200
               (fst (xhrCallback anyUrl 0
                       (Some (mkXhrHandlerData (Some getApi) None))
                       afterPageload)))
            (snd (xhrCallback anyUrl 0
                    (Some (mkXhrHandlerData (Some getApi) None))
                    afterPageload))))
  = _activities afterPageload.
Proof.
  assert (Ho : options afterPageload = Some defaults)
    by (vm_compute; reflexivity).
  destruct (xhrCallback_round_trip anyUrl 0 0 1 ok200 getApi
              (mkSentryXhr "GET" "/api" []) defaults afterPageload
              reachable_afterPageload Ho eq_refl eq_refl eq_refl eq_refl
              eq_refl) as [H _].
  exact H.
Defined.

(** X13.  Which xhr requests carry the trace header.  In a reachable state
    with [traceXHR] on, every event of a traced request that is not the end
    of a request with a recorded activity (so also the end event of a
    request whose start recorded no id or the id 0) goes through
    [pushActivity] and records the id it returns on the request.  The
    [sentry-trace] header is set exactly when a transaction is active, the
    hub getter yields a hub and the request has a [setRequestHeader]; its
    value is the trace parent of the span stored for this request, which
    was started as a child of the active transaction with op [http] and
    the description [method url].  Without an active transaction or a hub
    no span is started. *)
Theorem xhrCallback_trace_header
    (shouldCreate : string -> bool) (u : Q) (endTs : option Q)
    (x : XMLHttpRequest) (sx : SentryXhr) (o : TracingOptions) (st : State) :
  reachable st ->
  options st = Some o ->
  traceXHR o = true ->
  __sentry_xhr__ x = Some sx ->
  __sentry_own_request__ x = false ->
  shouldCreate (xhr_url sx) = true ->
  truthyTimestamp endTs && truthyId (__sentry_xhr_activity_id__ x) = false ->
  let started :=
    xhrCallback shouldCreate u (Some (mkXhrHandlerData (Some x) endTs)) st in
  recordedId (fst started) = (if hasActive st then _currentIndex st else 0) /\
  headersSet (fst started)
  = requestHeaders x
    ++ (if hasActive st && hubYields st && setRequestHeader x
        then [("sentry-trace", Traceparent (nextSpan st))] else []) /\
  (hasActive st && hubYields st = true ->
   _activities (snd started) !! _currentIndex st
   = Some (mkActivity "xhr" (Some (nextSpan st))) /\
   calls (snd started)
   = HubStartSpan (nextSpan st)
       (mkSpanContext (Some "http")
          (Some (String.append (xhr_method sx)
                   (String.append " " (xhr_url sx)))) None None)
       (_activeTransaction st)
     :: calls st) /\
  (hasActive st && hubYields st = false -> calls (snd started) = calls st).
Proof.
  intros Hr Ho Ht Hsx Hown Hf Hs.
  pose proof (reachable_Inv _ Hr) as HI.
  pose proof (reachable_Consistent _ Hr) as HC.
  cbv zeta.
  rewrite (xhrCallback_pushes shouldCreate u x sx o endTs st Ho Ht Hsx Hown Hf
             Hs).
  rewrite pushActivity_fields, (hasActive_enabled u st HC).
  pose proof (index_fresh st HI) as Hn.
  destruct (hasActive st) eqn:Ha; simpl.
  - assert (Hsc : scopeSpan st = _activeTransaction st).
    { unfold hasActive in Ha.
      destruct (_activeTransaction st) as [a|] eqn:E; [|discriminate].
      now apply (inv_scope _ HI). }
    unfold stored, hubYields.
    destruct (_getCurrentHub st) as [[]|]; simpl;
      rewrite ?lookup_insert_eq, ?Hn; simpl;
      destruct (setRequestHeader x); rewrite ?app_nil_r, ?Hsc;
      repeat split; intros; try discriminate; reflexivity.
  - assert (Hz : _activities (gate u st) !! 0 = None)
      by (rewrite (gate_fields u st); apply (con_no_zero _ HC)).
    rewrite Hz, app_nil_r, (gate_fields u st). simpl.
    repeat split; intros; try discriminate; reflexivity.
Qed.

Lemma xhrCallback_trace_header_witness :
  headersSet
    (fst (xhrCallback anyUrl 0 (Some (mkXhrHandlerData (Some getApi) None))
            afterPageload))
  = [] ++ [("sentry-trace", Traceparent 1)].
Proof.
  assert (Ho : options afterPageload = Some defaults)
    by (vm_compute; reflexivity).
  destruct (xhrCallback_trace_header anyUrl 0 None getApi
              (mkSentryXhr "GET" "/api" []) defaults afterPageload
              reachable_afterPageload Ho eq_refl eq_refl eq_refl eq_refl
              eq_refl) as (_ & H & _).
  exact H.
Defined.

(** ** The fetch adapter *)

Lemma fetchCallback_pushes shouldCreate u hd o st :
  options st = Some o ->
  traceFetch o = true ->
  shouldCreate (fetch_url (hd_fetchData hd)) = true ->
  truthyTimestamp (hd_fetchEndTimestamp hd)
  && truthyId (__activity (hd_fetchData hd)) = false ->
  fetchCallback shouldCreate u hd st
  = (mkFetchHandlerData
       (mkFetchData (fetch_method (hd_fetchData hd))
          (fetch_url (hd_fetchData hd))
          (Some (fst (pushActivity u "fetch"
                        (Some (requestContext (fetch_method (hd_fetchData hd))
                                              (fetch_url (hd_fetchData hd))))
                        None st))))
       (match
           _activities
             (snd (pushActivity u "fetch"
                     (Some (requestContext (fetch_method (hd_fetchData hd))
                                           (fetch_url (hd_fetchData hd))))
                     None st))
           !! fst (pushActivity u "fetch"
                     (Some (requestContext (fetch_method (hd_fetchData hd))
                                           (fetch_url (hd_fetchData hd))))
                     None st)
         with
         | Some (mkActivity _ (Some s)) =>
           Some (withTraceHeader s (hd_args1 hd))
         | _ => hd_args1 hd
         end)
       (hd_fetchEndTimestamp hd),
     snd (pushActivity u "fetch"
            (Some (requestContext (fetch_method (hd_fetchData hd))
                                  (fetch_url (hd_fetchData hd))))
            None st)).
Proof.
  intros Ho Ht Hf He. unfold fetchCallback.
  rewrite Ho, Ht. simpl. rewrite Hf, He. simpl.
  destruct (pushActivity u "fetch" _ None st) as [id st1]. simpl.
  destruct (_activities st1 !! id) as [[nm [s|]]|]; reflexivity.
Qed.

Lemma fetchCallback_pops shouldCreate u hd o t id st :
  options st = Some o ->
  traceFetch o = true ->
  shouldCreate (fetch_url (hd_fetchData hd)) = true ->
  hd_fetchEndTimestamp hd = Some t ->
  truthyQ t = true ->
  __activity (hd_fetchData hd) = Some (S id) ->
  fetchCallback shouldCreate u hd st
  = (hd, popActivity u (S id) (Some (fetchEntries (hd_fetchData hd))) st).
Proof.
  intros Ho Ht Hf He Htt Hid. unfold fetchCallback.
  rewrite Ho, Ht. simpl. rewrite Hf, He, Hid. simpl.
  now rewrite Htt.
Qed.

(** X14.  The two events of one fetch call undo each other in the
    registry.  In a reachable state with [traceFetch] on, for a call whose
    url passes [shouldCreateSpanForRequest], handling the start event and
    then the end event, which carries the same [fetchData], leaves the
    registry and the active transaction as they were before the start,
    whatever the start did.  If the start stored a span, the end event
    hands it [fetchData] as span data, that is [method], [url] and the
    [__activity] the adapter itself wrote there, and finishes it; otherwise
    the end event calls no span. *)
Theorem fetchCallback_round_trip
    (shouldCreate : string -> bool) (u u' t : Q) (hd : FetchHandlerData)
    (o : TracingOptions) (st : State) :
  reachable st ->
  options st = Some o ->
  traceFetch o = true ->
  shouldCreate (fetch_url (hd_fetchData hd)) = true ->
  hd_fetchEndTimestamp hd = None ->
  truthyQ t = true ->
  let started := fetchCallback shouldCreate u hd st in
  let ended :=
    fetchCallback shouldCreate u' (fetchEnded t (fst started)) (snd started) in
  let id := default 0 (__activity (hd_fetchData (fst started))) in
  _activities (snd ended) = _activities st /\
  _activeTransaction (snd ended) = _activeTransaction st /\
  calls (snd ended)
  = match _activities (snd started) !! id with
    | Some (mkActivity _ (Some s)) =>
      SpanFinish s false
        :: SpanSetData s "__activity" (VNum (Z.of_nat id))
        :: SpanSetData s "url" (VStr (fetch_url (hd_fetchData hd)))
        :: SpanSetData s "method" (VStr (fetch_method (hd_fetchData hd)))
        :: calls (snd started)
    | _ => calls (snd started)
    end.
Proof.
  intros Hr Ho Ht Hf Hend Htt.
  pose proof (reachable_Inv _ Hr) as HI.
  pose proof (reachable_Consistent _ Hr) as HC.
  cbv zeta.
  rewrite (fetchCallback_pushes shouldCreate u hd o st Ho Ht Hf)
    by (rewrite Hend; reflexivity).
  rewrite pushActivity_fields, (hasActive_enabled u st HC).
  destruct (hasActive st) eqn:Ha; simpl.
  - assert (He : _enabled (gate u st) = Some true).
    { unfold hasActive in Ha.
      destruct (_activeTransaction st) as [a|] eqn:E; [|discriminate].
      rewrite (gate_cached u st true); now apply (con_enabled _ HC a). }
    pose proof (inv_index _ HI) as Hi.
    destruct (_currentIndex st) as [|k] eqn:Ek; [lia|].
    erewrite fetchCallback_pops; try reflexivity; try eassumption.
    rewrite popActivity_fields. simpl.
    rewrite (isEnabled_cached _ _ true) by exact He. simpl.
    pose proof (index_fresh st HI) as Hn. rewrite Ek in Hn.
    split; [|split; [reflexivity|]].
    + unfold stored. destruct (_getCurrentHub st) as [[]|];
        rewrite ?delete_insert_eq; now apply delete_id.
    + unfold popCalls, stored. simpl.
      destruct (_getCurrentHub st) as [[]|];
        rewrite ?lookup_insert_eq, ?Hn; simpl; reflexivity.
  - assert (Hz : _activities (gate u st) !! 0 = None)
      by (rewrite (gate_fields u st); apply (con_no_zero _ HC)).
    rewrite Hz.
    erewrite fetchCallback_pushes; try reflexivity; try eassumption;
      [|rewrite (gate_fields u st); exact Ho|apply andb_false_r].
    simpl. rewrite pushActivity_fields.
    replace (hasActive (gate u st)) with false
      by (rewrite (gate_fields u st); symmetry; exact Ha).
    rewrite andb_false_r. simpl.
    rewrite (gate_fields u' _). simpl.
    rewrite (gate_fields u st). simpl. auto.
Qed.

Lemma fetchCallback_round_trip_witness :
  _activities
    (snd (fetchCallback anyUrl 0
            (fetchEnded 1 (fst (fetchCallback anyUrl 0 postForm afterPageload)))
            (snd (fetchCallback anyUrl 0 postForm afterPageload))))
  = _activities afterPageload.
Proof.
  assert (Ho : options afterPageload = Some defaults)
    by (vm_compute; reflexivity).
  destruct (fetchCallback_round_trip anyUrl 0 0 1 postForm defaults
              afterPageload reachable_afterPageload Ho eq_refl eq_refl eq_refl
              eq_refl) as [H _].
  exact H.
Defined.

Lemma headerOf_setEntry_eq k v entries :
  headerOf k (setEntry k v entries) = Some v.
Proof.
  unfold headerOf. induction entries as [|e entries IH]; simpl.
  - now rewrite String.eqb_refl.
  - destruct (String.eqb (fst e) k) eqn:E; simpl.
    + now rewrite String.eqb_refl.
    + now rewrite E.
Qed.

Lemma headerOf_setEntry_ne k k' v entries :
  k' <> k -> headerOf k' (setEntry k v entries) = headerOf k' entries.
Proof.
  intros Hne. unfold headerOf.
  induction entries as [|e entries IH]; simpl.
  - apply String.eqb_neq in Hne. rewrite String.eqb_sym in Hne.
    now rewrite Hne.
  - destruct (String.eqb (fst e) k) eqn:E; simpl.
    + apply String.eqb_eq in E. subst k.
      assert (E1 : String.eqb (fst e) k' = false)
        by (apply String.eqb_neq; congruence).
      now rewrite E1.
    + destruct (String.eqb (fst e) k'); [reflexivity|exact IH].
Qed.

(** X15.  What the fetch adapter does to the options of the call.  In a
    reachable state with [traceFetch] on, every event of a traced call that
    is not the end of a call with a recorded activity goes through
    [pushActivity] and records the id on [fetchData].  When a transaction is
    active and the hub getter yields a hub, the trace parent of the span
    just stored for the call is put into the headers and everything else
    in the options is kept: an array of headers gets one more element, the
    object [{ 'sentry-trace': ... }]; an object of headers keeps the value
    of every other header among its own enumerable properties; options
    without headers get an object with that one header.  Without an active
    transaction or a hub the options are left as they were, a missing
    [args[1]] stays missing. *)
Theorem fetchCallback_trace_header
    (shouldCreate : string -> bool) (u : Q) (hd : FetchHandlerData)
    (o : TracingOptions) (st : State) :
  reachable st ->
  options st = Some o ->
  traceFetch o = true ->
  shouldCreate (fetch_url (hd_fetchData hd)) = true ->
  truthyTimestamp (hd_fetchEndTimestamp hd)
  && truthyId (__activity (hd_fetchData hd)) = false ->
  let started := fetchCallback shouldCreate u hd st in
  let init := default (mkFetchOptions None []) (hd_args1 hd) in
  __activity (hd_fetchData (fst started))
  = Some (if hasActive st then _currentIndex st else 0) /\
  (hasActive st && hubYields st = false -> hd_args1 (fst started) = hd_args1 hd) /\
  (hasActive st && hubYields st = true ->
   _activities (snd started) !! _currentIndex st
   = Some (mkActivity "fetch" (Some (nextSpan st))) /\
   exists init',
     hd_args1 (fst started) = Some init' /\
     fo_more init' = fo_more init /\
     match fo_headers init with
     | Some (HeadersArray items) =>
       fo_headers init'
       = Some (HeadersArray
                 (items ++ [HeaderObject
                              [("sentry-trace", Traceparent (nextSpan st))]]))
     | Some (HeadersObject own) =>
       exists own',
         fo_headers init' = Some (HeadersObject own') /\
         headerOf "sentry-trace" own' = Some (Traceparent (nextSpan st)) /\
         forall k, k <> "sentry-trace" -> headerOf k own' = headerOf k own
     | None =>
       fo_headers init'
       = Some (HeadersObject [("sentry-trace", Traceparent (nextSpan st))])
     end).
Proof.
  intros Hr Ho Ht Hf Hs.
  pose proof (reachable_Inv _ Hr) as HI.
  pose proof (reachable_Consistent _ Hr) as HC.
  cbv zeta.
  rewrite (fetchCallback_pushes shouldCreate u hd o st Ho Ht Hf Hs).
  rewrite pushActivity_fields, (hasActive_enabled u st HC).
  pose proof (index_fresh st HI) as Hn.
  destruct (hasActive st) eqn:Ha; simpl.
  - unfold stored, hubYields.
    destruct (_getCurrentHub st) as [[]|]; simpl;
      rewrite ?lookup_insert_eq, ?Hn; simpl;
      (split; [reflexivity|]); (split; [intros; try discriminate; reflexivity|]);
      intros; try discriminate.
    split; [reflexivity|].
    eexists. split; [reflexivity|]. split; [reflexivity|].
    simpl. destruct (fo_headers (default _ (hd_args1 hd))) as [[items|own]|];
      try reflexivity.
    eexists. split; [reflexivity|].
    split; [apply headerOf_setEntry_eq|].
    intros k Hk. now apply headerOf_setEntry_ne.
  - assert (Hz : _activities (gate u st) !! 0 = None)
      by (rewrite (gate_fields u st); apply (con_no_zero _ HC)).
    rewrite Hz.
    split; [reflexivity|]. split; [reflexivity|]. intros; discriminate.
Qed.

Lemma fetchCallback_trace_header_witness :
  exists init',
    hd_args1 (fst (fetchCallback anyUrl 0 postForm afterPageload)) = Some init' /\
    fo_more init' = [("method", VStr "POST")].
Proof.
  assert (Ho : options afterPageload = Some defaults)
    by (vm_compute; reflexivity).
  destruct (fetchCallback_trace_header anyUrl 0 postForm defaults
              afterPageload reachable_afterPageload Ho eq_refl eq_refl eq_refl)
    as (_ & _ & H).
  destruct (H eq_refl) as (_ & init' & H1 & H2 & _).
  exists init'. split; [exact H1|exact H2].
Defined.

(** ** No activity span is finished twice *)

Lemma activityFinishes_app s pre cs :
  (forall c, In c pre -> isActivityFinishOf s c = false) ->
  activityFinishes s (pre ++ cs) = activityFinishes s cs.
Proof.
  intros H. unfold activityFinishes. rewrite List.filter_app, length_app.
  replace (List.filter (isActivityFinishOf s) pre) with (@nil Call);
    [reflexivity|].
  induction pre as [|c pre IH]; [reflexivity|]. simpl.
  rewrite (H c (or_introl eq_refl)). apply IH.
  intros c' Hc'. apply H. now right.
Qed.

Lemma activityFinishes_spanData s' s d cs :
  activityFinishes s' (spanDataCalls s d cs) = activityFinishes s' cs.
Proof.
  rewrite spanDataCalls_chronological. apply activityFinishes_app.
  intros c Hc. apply in_rev, in_flat_map in Hc as (kv & _ & Hc).
  unfold spanDataEntry in Hc.
  destruct (String.eqb (fst kv) "status_code"),
    (String.eqb (fst kv) "status"); simpl in Hc;
    intuition (subst; reflexivity).
Qed.

Lemma Once_calls pre st st' :
  calls st' = pre ++ calls st ->
  (forall s c, In c pre -> isActivityFinishOf s c = false) ->
  _activities st' = _activities st ->
  nextSpan st' = nextSpan st ->
  Once st -> Once st'.
Proof.
  intros E1 Hpre E2 E3 [].
  assert (E : forall s, activityFinishes s (calls st')
                        = activityFinishes s (calls st)).
  { intros s. rewrite E1. apply activityFinishes_app. intros c. apply Hpre. }
  split; intros *; rewrite ?E, ?E2, ?E3; eauto.
Qed.

Lemma Once_same st st' :
  calls st' = calls st ->
  _activities st' = _activities st ->
  nextSpan st' = nextSpan st ->
  Once st -> Once st'.
Proof.
  intros E1. apply (Once_calls [] st st'); [exact E1|intros s c []].
Qed.

Lemma Once_gate u st : Once st -> Once (gate u st).
Proof. apply Once_same; now rewrite gate_fields. Qed.

Lemma Once_finishIdleTransaction st : Once st -> Once (finishIdleTransaction st).
Proof.
  rewrite finishIdleTransaction_fields.
  destruct (_activeTransaction st) as [a|] eqn:Ha.
  - apply (Once_calls [SpanFinish a true]); try reflexivity.
    intros s c [<-|[]]. reflexivity.
  - apply Once_same; reflexivity.
Qed.

Lemma Once_pushActivity u n ctx a st :
  Inv st -> Once st -> Once (snd (pushActivity u n ctx a st)).
Proof.
  intros HI H. rewrite pushActivity_fields.
  destruct (fst (_isEnabled u st) && hasActive st); simpl;
    [|now apply Once_gate].
  pose proof (index_fresh st HI) as Hn.
  destruct H. destruct (stored ctx st) as [c| |].
  - assert (E : forall s, activityFinishes s
                            (HubStartSpan (nextSpan st) c (scopeSpan st)
                             :: calls st)
                          = activityFinishes s (calls st)) by reflexivity.
    split; simpl; intros *; rewrite ?E.
    + apply once_calls0.
    + intros Hl Hs.
      destruct (decide (id = _currentIndex st)) as [->|Hne].
      * rewrite lookup_insert_eq in Hl. simplify_eq/=. now apply once_fresh0.
      * rewrite lookup_insert_ne in Hl by congruence. eauto.
    + intros Hs. apply once_fresh0. lia.
    + intros Hl Hl' Hs Hs'.
      destruct (decide (id = _currentIndex st)) as [->|Hne],
        (decide (id' = _currentIndex st)) as [->|Hne'];
        rewrite ?lookup_insert_eq in *;
        rewrite ?lookup_insert_ne in * by congruence;
        simplify_eq/=; try reflexivity.
      * pose proof (inv_activity_spans _ HI _ _ _ Hl' Hs'). lia.
      * pose proof (inv_activity_spans _ HI _ _ _ Hl Hs). lia.
      * eauto.
  - split; simpl; intros *.
    + apply once_calls0.
    + intros Hl Hs.
      destruct (decide (id = _currentIndex st)) as [->|Hne].
      * rewrite lookup_insert_eq in Hl. simplify_eq/=.
      * rewrite lookup_insert_ne in Hl by congruence. eauto.
    + apply once_fresh0.
    + intros Hl Hl' Hs Hs'.
      destruct (decide (id = _currentIndex st)) as [->|Hne],
        (decide (id' = _currentIndex st)) as [->|Hne'];
        rewrite ?lookup_insert_eq in *;
        rewrite ?lookup_insert_ne in * by congruence;
        simplify_eq/=; eauto.
  - split; simpl; assumption.
Qed.

Lemma Once_popActivity u id d st :
  Inv st -> Once st -> Once (popActivity u id d st).
Proof.
  intros HI H. rewrite popActivity_fields.
  destruct (fst (_isEnabled u st) && negb (Nat.eqb id 0)); simpl;
    [|now apply Once_gate].
  destruct H. unfold popCalls.
  destruct (_activities st !! id) as [[nm [s0|]]|] eqn:Hid.
  - assert (E : forall s,
               activityFinishes s
                 (SpanFinish s0 false
                  :: match d with
                     | Some d0 => spanDataCalls s0 d0 (calls st)
                     | None => calls st
                     end)
               = (if Nat.eqb s0 s then 1 else 0)
                 + activityFinishes s (calls st)).
    { intros s. unfold activityFinishes at 1. simpl.
      fold (activityFinishes s
              match d with
              | Some d0 => spanDataCalls s0 d0 (calls st)
              | None => calls st
              end).
      assert (E' : activityFinishes s
                     match d with
                     | Some d0 => spanDataCalls s0 d0 (calls st)
                     | None => calls st
                     end
                   = activityFinishes s (calls st))
        by (destruct d; [apply activityFinishes_spanData|reflexivity]).
      destruct (Nat.eqb s0 s); simpl; unfold activityFinishes in *;
        now rewrite E'. }
    pose proof (once_open0 _ _ _ Hid eq_refl) as H0. simpl in H0.
    split; cbn -[activityFinishes spanDataCalls]; intros *; rewrite ?E.
    + destruct (Nat.eqb s0 s) eqn:Es; [|apply once_calls0].
      apply Nat.eqb_eq in Es. subst s. lia.
    + intros Hl Hs. apply lookup_delete_Some in Hl as [Hne Hl].
      destruct (Nat.eqb s0 s) eqn:Es; [|simpl; eauto].
      apply Nat.eqb_eq in Es. subst s. exfalso. apply Hne.
      symmetry. now apply (once_distinct0 _ _ _ _ s0 Hl Hid).
    + intros Hs. destruct (Nat.eqb s0 s) eqn:Es; [|simpl; auto].
      apply Nat.eqb_eq in Es. subst s.
      pose proof (inv_activity_spans _ HI _ _ _ Hid eq_refl). lia.
    + intros Hl Hl' Hs Hs'.
      apply lookup_delete_Some in Hl as [_ Hl].
      apply lookup_delete_Some in Hl' as [_ Hl']. eauto.
  - split; simpl; intros *.
    + apply once_calls0.
    + intros Hl. apply lookup_delete_Some in Hl as [_ Hl]. eauto.
    + apply once_fresh0.
    + intros Hl Hl'.
      apply lookup_delete_Some in Hl as [_ Hl].
      apply lookup_delete_Some in Hl' as [_ Hl']. eauto.
  - rewrite (delete_id _ _ Hid). split; simpl; assumption.
Qed.

Lemma Once_startIdleTransaction u n ctx st :
  Inv st -> Once st -> Once (snd (startIdleTransaction u n ctx st)).
Proof.
  intros HI H. rewrite startIdleTransaction_fields.
  destruct (fst (_isEnabled u st)); simpl; [|now apply Once_gate].
  destruct (_getCurrentHub st) as [[]|]; simpl;
    try now apply Once_finishIdleTransaction, Once_gate.
  apply Once_finishIdleTransaction in H.
  rewrite finishIdleTransaction_fields in *.
  destruct H. simpl in *.
  assert (E : forall s cs,
             activityFinishes s
               (ScopeSetSpan (nextSpan st)
                :: HubStartSpan (nextSpan st) (withTransaction n ctx) None
                :: cs)
             = activityFinishes s cs) by reflexivity.
  split; simpl; intros *; rewrite ?E.
  - apply once_calls0.
  - intros Hl Hs.
    destruct (decide (id = _currentIndex st)) as [->|Hne].
    + rewrite lookup_insert_eq in Hl. simplify_eq/=.
    + rewrite lookup_insert_ne in Hl by congruence. eauto.
  - intros Hs. apply once_fresh0. lia.
  - intros Hl Hl' Hs Hs'.
    destruct (decide (id = _currentIndex st)) as [->|Hne],
      (decide (id' = _currentIndex st)) as [->|Hne'];
      rewrite ?lookup_insert_eq in *;
      rewrite ?lookup_insert_ne in * by congruence;
      simplify_eq/=; eauto.
Qed.

Lemma Once_visibilityListener hidden st :
  Once st -> Once (visibilityListener hidden st).
Proof.
  intros H. rewrite visibilityListener_fields.
  destruct (hidden && hasActive st); [|assumption].
  destruct H. split; simpl; try assumption;
    intros *; rewrite lookup_empty; discriminate.
Qed.

Lemma reachable_Once st : reachable st -> Once st.
Proof.
  intros Hr.
  enough (H : Inv st /\ Once st) by apply H.
  refine (kept_reachable (fun st => Inv st /\ Once st)
            _ _ _ _ _ _ _ _ _ _ _ _ _ _ _ st _ Hr).
  - intros v x [H1 H2]. split;
      [eapply Inv_ext|eapply Once_same]; try eassumption; reflexivity.
  - intros v x [H1 H2]. split;
      [eapply Inv_ext|eapply Once_same]; try eassumption; reflexivity.
  - intros v x [H1 H2]. split;
      [eapply Inv_ext|eapply Once_same]; try eassumption; reflexivity.
  - intros v x [H1 H2]. split;
      [eapply Inv_ext|eapply Once_same]; try eassumption; reflexivity.
  - intros v x [H1 H2]. split;
      [eapply Inv_ext|eapply Once_same]; try eassumption; reflexivity.
  - intros v x [H1 H2]. split;
      [eapply Inv_ext|eapply Once_same]; try eassumption; reflexivity.
  - intros u x [H1 H2].
    split; [now apply Inv_gate|now apply Once_gate].
  - intros h x [H1 H2].
    split; [now apply Inv_clearTimeout|].
    eapply Once_same; [..|exact H2]; reflexivity.
  - intros x [H1 H2]. split;
      [now apply Inv_finishIdleTransaction
      |now apply Once_finishIdleTransaction].
  - intros status x [H1 H2]. split;
      [now apply Inv_setTransactionStatus|].
    rewrite setTransactionStatus_fields.
    destruct (_activeTransaction x) as [a|].
    + apply (Once_calls [SpanSetStatus a (VStr status)] x); try reflexivity;
        [|exact H2].
      intros s c [<-|[]]. reflexivity.
    + eapply Once_same; [..|exact H2]; reflexivity.
  - intros n x [H1 H2]. split;
      [now apply Inv_updateTransactionName|].
    rewrite updateTransactionName_fields.
    destruct (_getCurrentHub x) as [[]|];
      try (eapply Once_same; [..|exact H2]; reflexivity).
    apply (Once_calls [HubConfigureScope (CbSetTransaction n)] x);
      try reflexivity;
      [|exact H2].
    intros s c [<-|[]]. reflexivity.
  - intros u n ctx a x [H1 H2].
    split; [now apply Inv_pushActivity|now apply Once_pushActivity].
  - intros u id d x [H1 H2].
    split; [now apply Inv_popActivity|now apply Once_popActivity].
  - intros u n ctx x [H1 H2]. split;
      [now apply Inv_startIdleTransaction
      |now apply Once_startIdleTransaction].
  - intros hidden x [H1 H2]. split;
      [now apply Inv_visibilityListener
      |now apply Once_visibilityListener].
  - split; [apply Inv_initial|].
    split; simpl; intros *; rewrite ?lookup_empty;
      try (intros; discriminate); try (intros; reflexivity).
    unfold activityFinishes. simpl. lia.
Qed.

(** X16.  [popActivity] finishes no span twice.  In every reachable state
    each span has received at most one [finish()] from [popActivity],
    whatever the order of pushes, pops by hand, auto-pops, new
    transactions and discards.  The span of an activity that is still
    registered has received none, and no other registered activity holds
    it. *)
Theorem activity_span_finished_once (st : State) :
  reachable st ->
  (forall s, activityFinishes s (calls st) <= 1) /\
  (forall id a s,
     _activities st !! id = Some a -> span a = Some s ->
     activityFinishes s (calls st) = 0 /\
     forall id' a',
       _activities st !! id' = Some a' -> span a' = Some s -> id' = id).
Proof.
  intros Hr. destruct (reachable_Once st Hr).
  split; [assumption|].
  intros id a s Hl Hs. split; [eauto|].
  intros id' a' Hl' Hs'. eauto.
Qed.

Lemma activity_span_finished_once_witness :
  activityFinishes 1 (calls poppedTwice) <= 1.
Proof.
  assert (Hr : reachable poppedTwice)
    by (apply reachable_run, reachable_requestInFlight).
  destruct (activity_span_finished_once poppedTwice Hr) as [H _].
  apply H.
Defined.

(** ** The adapters and the controller *)

(** X17.  The request adapters act on the controller through
    [pushActivity] and [popActivity] only, and at most once per event:
    whatever the event and the state, the state after [xhrCallback] or
    [fetchCallback] is the state before, or the state after one
    [pushActivity], or the state after one [popActivity].  They never
    start, finish or discard a transaction themselves. *)
Theorem adapters_only_push_and_pop
    (shouldCreate : string -> bool) (u : Q)
    (xhrData : option XhrHandlerData) (fetchData : FetchHandlerData)
    (st : State) :
  (exists ops,
     snd (xhrCallback shouldCreate u xhrData st) = run ops st /\
     forallb isPushOrPop ops = true /\ length ops <= 1) /\
  (exists ops,
     snd (fetchCallback shouldCreate u fetchData st) = run ops st /\
     forallb isPushOrPop ops = true /\ length ops <= 1).
Proof.
  split.
  - unfold xhrCallback.
    destruct (options st) as [o|]; [|exists []; auto].
    destruct (traceXHR o); simpl; [|exists []; auto].
    destruct xhrData as [[[x|] endTs]|]; simpl; try (exists []; auto; fail).
    destruct (__sentry_xhr__ x) as [sx|]; [|exists []; auto].
    destruct (shouldCreate (xhr_url sx)); simpl; [|exists []; auto].
    destruct (__sentry_own_request__ x); [exists []; auto|].
    destruct (truthyTimestamp endTs && truthyId _).
    + exists [PopActivity u (default 0 (__sentry_xhr_activity_id__ x))
                (Some (xhrEntries sx))]. auto.
    + exists [PushActivity u "xhr"
                (Some (requestContext (xhr_method sx) (xhr_url sx))) None].
      simpl. destruct (pushActivity u "xhr" _ None st). auto.
  - unfold fetchCallback.
    destruct (options st) as [o|]; [|exists []; auto].
    destruct (traceFetch o); simpl; [|exists []; auto].
    destruct (shouldCreate _); simpl; [|exists []; auto].
    destruct (truthyTimestamp _ && truthyId _).
    + exists [PopActivity u (default 0 (__activity (hd_fetchData fetchData)))
                (Some (fetchEntries (hd_fetchData fetchData)))]. auto.
    + exists [PushActivity u "fetch"
                (Some (requestContext (fetch_method (hd_fetchData fetchData))
                                      (fetch_url (hd_fetchData fetchData))))
                None].
      simpl. destruct (pushActivity u "fetch" _ None st). auto.
Qed.

(** ** Navigation *)

(** X18.  [historyCallback] starts the navigation transaction.  With
    [startTransactionOnLocationChange] off or without a location it does
    nothing, not even consult the sampling gate.  Otherwise, when tracing
    is enabled and the hub getter yields a hub, it goes through
    [startIdleTransaction] with the href as name, an empty href included:
    the transaction active so far is finished first, then a root span with
    op [navigation] and [sampled: true] becomes the active transaction,
    and the activities registered so far stay registered next to the new
    bootstrap activity. *)
Theorem historyCallback_navigation
    (env : Browser) (u : Q) (o : TracingOptions) (st : State) :
  options st = Some o ->
  (startTransactionOnLocationChange o = false \/ location_href env = None ->
   historyCallback env u st = st) /\
  (forall href,
   startTransactionOnLocationChange o = true ->
   location_href env = Some href ->
   _enabled st = Some true ->
   hubYields st = true ->
   _activeTransaction (historyCallback env u st) = Some (nextSpan st) /\
   calls (historyCallback env u st)
   = ScopeSetSpan (nextSpan st)
       :: HubStartSpan (nextSpan st)
            (mkSpanContext (Some "navigation") None (Some true) (Some href))
            None
       :: finishedCalls st /\
   _activities (historyCallback env u st)
   = <[_currentIndex st := mkActivity "idleTransactionStarted" None]>
       (_activities st)).
Proof.
  intros Ho. unfold historyCallback. rewrite Ho. split.
  - intros [->| ->]; [reflexivity|].
    now destruct (startTransactionOnLocationChange o).
  - intros href -> -> He Hh.
    rewrite startIdleTransaction_fields.
    rewrite (isEnabled_cached u st true He). simpl.
    unfold hubYields in Hh.
    destruct (_getCurrentHub st) as [[]|]; try discriminate. simpl.
    rewrite finishIdleTransaction_fields. auto.
Qed.

Lemma historyCallback_navigation_witness :
  calls (historyCallback browser 0 afterPageload)
  = ScopeSetSpan 1
      :: HubStartSpan 1
           (mkSpanContext (Some "navigation") None (Some true)
              (Some "http://localhost/")) None
      :: finishedCalls afterPageload.
Proof.
  assert (Ho : options afterPageload = Some defaults)
    by (vm_compute; reflexivity).
  destruct (historyCallback_navigation browser 0 defaults afterPageload Ho)
    as [_ H].
  destruct (H "http://localhost/" eq_refl eq_refl eq_refl eq_refl)
    as (_ & H2 & _).
  exact H2.
Defined.
